(** * charts-clean: a shallow embedding of [src/main.rs]

    The program walks a directory tree of chart tiles named
    [<key>_<date>_<time>_<ext>], keeps the newest file of every group key in
    a [BTreeSet<FoundFile>] and collects the superseded paths in a
    [BTreeSet<PathBuf>], which it then deletes in order.

    Modelling choices:
    - [&str::split] is [str_split]; [next_back] on a split iterator is the
      n-th element of the reversed token list ([nth_error (rev toks) n]).
    - A [PathBuf] is its list of normal components below the root
      directory; its [display()] is ["/c1/c2/..."].  [Path]'s [Ord] compares
      components, which is [path_cmp].
    - [BTreeSet<T>] is a strictly sorted list; [contains], [take] and
      [insert] compare elements through the set's [Ord] only, as the Rust
      collection does.  [FoundFile]'s [Ord] compares the [path] field
      (the group key) only.
    - [irox_time::gregorian::Date] is a year and a day of the year, ordered
      lexicographically.  The date parser of the library
      ([BASIC_CALENDAR_DATE.try_from]) is an argument of the scanner; the
      model [parse_basic_calendar_date] below is used for concrete runs.
    - A panic (integer underflow, [unwrap] on [None]) is the outcome
      [Panicked]; it ends the process before anything is deleted.
    - The filesystem is a tree of [DirEntry]; an entry whose [file_type],
      [read_dir] or iteration fails is [EIoError]. *)

From Stdlib Require Import String Ascii List Bool ZArith Lia.
From Stdlib Require Import Sorting.Sorted Permutation.
Import ListNotations.
Open Scope list_scope.
Set Warnings "-register-all".

(** ** Rust results, errors and outcomes *)

Inductive result (T E : Type) : Type :=
| Ok (t : T)
| Err (e : E).
Arguments Ok {T E} t.
Arguments Err {T E} e.

(** [std::io::Error], kept opaque: only its message. *)
Inductive io_error : Type := io_error_of (msg : string).

(** [irox_time::format::FormatError]. *)
Inductive FormatError : Type := format_error_of (msg : string).

(** [enum Error { IOError(..), FormatError(..) }] *)
Inductive Error : Type :=
| IOError (e : io_error)
| FormatError_ (e : FormatError).

(** The result of running a Rust function: it returns normally, returns
    [Err] (propagated by [?]), or panics. *)
Inductive outcome (T : Type) : Type :=
| Returned (t : T)
| Failed (e : Error)
| Panicked.
Arguments Returned {T} t.
Arguments Failed {T} e.
Arguments Panicked {T}.

Definition bind_outcome {T U} (o : outcome T) (k : T -> outcome U) : outcome U :=
  match o with
  | Returned t => k t
  | Failed e => Failed e
  | Panicked => Panicked
  end.

(** ** Strings: [str::split], [next_back], [join] *)

(** [s.split(c)]: the tokens between occurrences of [c]; always at least one
    (the empty string splits into [[""]]). *)
Fixpoint str_split (c : ascii) (s : string) : list string :=
  match s with
  | EmptyString => [EmptyString]
  | String a s' =>
      let r := str_split c s' in
      if Ascii.eqb a c then EmptyString :: r
      else match r with
           | [] => [String a EmptyString]
           | t :: ts => String a t :: ts
           end
  end.

(** The value of the [n+1]-th call of [next_back] on an iterator over [l]. *)
Definition next_back_nth {A} (n : nat) (l : list A) : option A :=
  nth_error (rev l) n.

(** [v.join(sep)] on a [Vec<&str>]. *)
Definition join (sep : string) (l : list string) : string :=
  String.concat sep l.

(** ** Dates *)

(** [irox_time::gregorian::Date] *)
Record Date : Type := mkDate { year : Z; day_of_year : Z }.

(** The derived [PartialOrd] of [Date]: [old.date < found_file.date]. *)
Definition date_lt (a b : Date) : bool :=
  (year a <? year b)%Z || ((year a =? year b)%Z && (day_of_year a <? day_of_year b)%Z).

Definition is_leap (y : Z) : bool :=
  ((y mod 4 =? 0)%Z && negb (y mod 100 =? 0)%Z) || (y mod 400 =? 0)%Z.

Definition days_in_month (y m : Z) : Z :=
  if (m =? 2)%Z then (if is_leap y then 29 else 28)%Z
  else if (m =? 4)%Z || (m =? 6)%Z || (m =? 9)%Z || (m =? 11)%Z then 30%Z
  else 31%Z.

(** Days in the months before month [m] of year [y]. *)
Fixpoint days_before_month (y : Z) (m : nat) : Z :=
  match m with
  | O | S O => 0%Z
  | S m' => (days_before_month y m' + days_in_month y (Z.of_nat m'))%Z
  end.

Definition digit_value (a : ascii) : option Z :=
  let n := nat_of_ascii a in
  if (48 <=? n) && (n <=? 57) then Some (Z.of_nat (n - 48)) else None.

Fixpoint digits_value (acc : Z) (s : string) : option Z :=
  match s with
  | EmptyString => Some acc
  | String a s' =>
      match digit_value a with
      | Some d => digits_value (10 * acc + d)%Z s'
      | None => None
      end
  end.

(** Model of [BASIC_CALENDAR_DATE.try_from]: the ISO 8601 basic calendar
    date [YYYYMMDD], eight digits naming an existing day. *)
Definition parse_basic_calendar_date (s : string) : result Date FormatError :=
  if (String.length s =? 8)%nat then
    match digits_value 0 (substring 0 4 s), digits_value 0 (substring 4 2 s),
          digits_value 0 (substring 6 2 s) with
    | Some y, Some m, Some d =>
        if (1 <=? m)%Z && (m <=? 12)%Z && (1 <=? d)%Z && (d <=? days_in_month y m)%Z
        then Ok (mkDate y (days_before_month y (Z.to_nat m) + d))
        else Err (format_error_of "invalid calendar date")
    | _, _, _ => Err (format_error_of "expected digits")
    end
  else Err (format_error_of "expected YYYYMMDD").

(** ** [BTreeSet<T>] as a strictly sorted list

    [key] maps an element to what its [Ord] compares; [cmp] is that order. *)

Section OrderedSet.
Context {A K : Type} (key : A -> K) (cmp : K -> K -> comparison).

(** [set.contains(x)] *)
Definition set_contains (x : A) (s : list A) : bool :=
  existsb (fun y => match cmp (key x) (key y) with Eq => true | _ => false end) s.

(** [set.insert(x)]: no change when an equal element is present. *)
Fixpoint set_insert (x : A) (s : list A) : list A :=
  match s with
  | [] => [x]
  | y :: s' =>
      match cmp (key x) (key y) with
      | Lt => x :: s
      | Eq => s
      | Gt => y :: set_insert x s'
      end
  end.

(** [set.take(x)]: removes and returns the element equal to [x]. *)
Fixpoint set_take (x : A) (s : list A) : option A * list A :=
  match s with
  | [] => (None, [])
  | y :: s' =>
      match cmp (key x) (key y) with
      | Eq => (Some y, s')
      | _ => let (r, s'') := set_take x s' in (r, y :: s'')
      end
  end.
End OrderedSet.

(** ** Paths *)

(** [PathBuf]: the normal components of an absolute path. *)
Definition PathBuf : Type := list string.

(** [path.display().to_string()] *)
Definition path_display (p : PathBuf) : string :=
  String.concat "" (map (fun c => String "/" c) p).

(** [Ord for Path]: lexicographic on the components. *)
Fixpoint path_cmp (p q : PathBuf) : comparison :=
  match p, q with
  | [], [] => Eq
  | [], _ :: _ => Lt
  | _ :: _, [] => Gt
  | c :: p', d :: q' =>
      match String.compare c d with
      | Eq => path_cmp p' q'
      | r => r
      end
  end.

(** ** [FoundFile] and the scanner state *)

Record FoundFile : Type := mkFoundFile {
  path : string;          (* the group key *)
  date : Date;
  full_path : PathBuf
}.

(** [Ord for FoundFile]: [self.path.cmp(&other.path)]. *)
Definition found_cmp : string -> string -> comparison := String.compare.

Record ScanState : Type := mkScanState {
  to_keep : list FoundFile;       (* BTreeSet<FoundFile> *)
  to_remove : list PathBuf;       (* BTreeSet<PathBuf> *)
  error_log : list string         (* messages of [error!] *)
}.

Definition empty_state : ScanState := mkScanState [] [] [].

Definition keep_contains (f : FoundFile) (s : list FoundFile) : bool :=
  set_contains path found_cmp f s.
Definition keep_insert (f : FoundFile) (s : list FoundFile) : list FoundFile :=
  set_insert path found_cmp f s.
Definition keep_take (f : FoundFile) (s : list FoundFile) : option FoundFile * list FoundFile :=
  set_take path found_cmp f s.
Definition remove_insert (p : PathBuf) (s : list PathBuf) : list PathBuf :=
  set_insert (fun q => q) path_cmp p s.

(** Lines 110-124 of [scan_dir_and_recurse]: the deduplication step. *)
Definition dedup (found_file : FoundFile) (st : ScanState) : outcome ScanState :=
  let to_keep0 := to_keep st in
  let to_remove0 := to_remove st in
  if keep_contains found_file to_keep0 then
    match keep_take found_file to_keep0 with
    | (None, _) => Panicked   (* [.unwrap()] on [None] *)
    | (Some old, to_keep1) =>
        if date_lt (date old) (date found_file) then
          Returned (mkScanState (keep_insert found_file to_keep1)
                                (remove_insert (full_path old) to_remove0)
                                (error_log st))
        else
          Returned (mkScanState (keep_insert old to_keep1)
                                (remove_insert (full_path found_file) to_remove0)
                                (error_log st))
    end
  else Returned (mkScanState (keep_insert found_file to_keep0) to_remove0 (error_log st)).

(** The filename parser of lines 92-102, before the deduplication step. *)
Inductive parsed : Type :=
| PPanic                          (* [base_path.len()-3] underflows *)
| PSkip                           (* no third [next_back] token: error! and Ok *)
| PBadDate (e : FormatError)      (* [BASIC_CALENDAR_DATE.try_from(date)?] *)
| PParsed (key : string) (d : Date).

Definition parse_path (basic_calendar_date : string -> result Date FormatError)
    (p : PathBuf) : parsed :=
  let path_str := path_display p in
  match next_back_nth 0 (str_split "/" path_str) with
  | None => PPanic                (* [.unwrap()] *)
  | Some seg =>
      let base_path := str_split "_" seg in
      if (length base_path <? 3)%nat then PPanic
      else
        let base_path := join "_" (firstn (length base_path - 3) base_path) in
        let paths := str_split "_" path_str in
        match next_back_nth 2 paths with
        | None => PSkip
        | Some date =>
            match basic_calendar_date date with
            | Err e => PBadDate e
            | Ok d => PParsed base_path d
            end
        end
  end.

(** The non-directory branch of [scan_dir_and_recurse]. *)
Definition scan_file (basic_calendar_date : string -> result Date FormatError)
    (p : PathBuf) (st : ScanState) : outcome ScanState :=
  match parse_path basic_calendar_date p with
  | PPanic => Panicked
  | PSkip => Returned (mkScanState (to_keep st) (to_remove st)
                          (error_log st ++ ["Error processing path: " ++ path_display p]%string))
  | PBadDate e => Failed (FormatError_ e)
  | PParsed key d => dedup (mkFoundFile key d p) st
  end.

(** ** The directory walk *)

(** A directory entry as [scan_dir_and_recurse] sees it. *)
Inductive DirEntry : Type :=
| EFile (p : PathBuf)                       (* [!ty.is_dir()] *)
| EDir (p : PathBuf) (children : list DirEntry)
| EIoError (e : io_error).                  (* [file_type()?], [read_dir(path)?] or [dir?] fails *)

(** [scan_dir_and_recurse] *)
Fixpoint scan_dir_and_recurse (basic_calendar_date : string -> result Date FormatError)
    (dir : DirEntry) (st : ScanState) : outcome ScanState :=
  match dir with
  | EIoError e => Failed (IOError e)
  | EDir _ dirs =>
      (fix scan_all (dirs : list DirEntry) (st : ScanState) : outcome ScanState :=
         match dirs with
         | [] => Returned st
         | d :: ds =>
             bind_outcome (scan_dir_and_recurse basic_calendar_date d st) (scan_all ds)
         end) dirs st
  | EFile p => scan_file basic_calendar_date p st
  end.

(** The [for dir in dirs] loop of [main] over the entries of the root. *)
Fixpoint scan_entries (basic_calendar_date : string -> result Date FormatError)
    (dirs : list DirEntry) (st : ScanState) : outcome ScanState :=
  match dirs with
  | [] => Returned st
  | d :: ds => bind_outcome (scan_dir_and_recurse basic_calendar_date d st)
                            (scan_entries basic_calendar_date ds)
  end.

(** The sequence of non-directory entries and failures met by the walk. *)
Inductive WalkItem : Type :=
| WFile (p : PathBuf)
| WIoError (e : io_error).

Fixpoint walk_items (dir : DirEntry) : list WalkItem :=
  match dir with
  | EFile p => [WFile p]
  | EIoError e => [WIoError e]
  | EDir _ dirs => (fix go (l : list DirEntry) := match l with
                                                | [] => []
                                                | d :: ds => walk_items d ++ go ds
                                                end) dirs
  end.

Definition walk_items_list (dirs : list DirEntry) : list WalkItem :=
  flat_map walk_items dirs.

(** The files of a list of walk items. *)
Fixpoint item_files (l : list WalkItem) : list PathBuf :=
  match l with
  | [] => []
  | WFile p :: l' => p :: item_files l'
  | WIoError _ :: l' => item_files l'
  end.

(** The walk, one item at a time. *)
Fixpoint scan_items (basic_calendar_date : string -> result Date FormatError)
    (l : list WalkItem) (st : ScanState) : outcome ScanState :=
  match l with
  | [] => Returned st
  | WFile p :: l' => bind_outcome (scan_file basic_calendar_date p st)
                                  (scan_items basic_calendar_date l')
  | WIoError e :: _ => Failed (IOError e)
  end.

(** ** [main] *)

(** The deletion loop [for file in &to_remove { remove_file(&file)?; }]:
    the paths passed to [remove_file], in order, and the loop's result. *)
Fixpoint remove_all (remove_file : PathBuf -> result unit io_error)
    (files : list PathBuf) : list PathBuf * outcome unit :=
  match files with
  | [] => ([], Returned tt)
  | f :: fs =>
      match remove_file f with
      | Err e => ([f], Failed (IOError e))
      | Ok _ => let (tried, r) := remove_all remove_file fs in (f :: tried, r)
      end
  end.

(** A run of [main] on the entries of the root directory: the paths given
    to [remove_file] and the outcome, whose value is the two counts logged
    at the end ([to_keep.len()], [to_remove.len()]). *)
Definition main (basic_calendar_date : string -> result Date FormatError)
    (remove_file : PathBuf -> result unit io_error) (dirs : list DirEntry)
    : list PathBuf * outcome (nat * nat) :=
  match scan_entries basic_calendar_date dirs empty_state with
  | Failed e => ([], Failed e)
  | Panicked => ([], Panicked)
  | Returned st =>
      let (tried, r) := remove_all remove_file (to_remove st) in
      (tried, bind_outcome r (fun _ => Returned (length (to_keep st), length (to_remove st))))
  end.

(** The configured root directory [/chonko-1/chartdata/USGS-Topo/28-JAN-2023]. *)
Definition root_path : PathBuf := ["chonko-1"; "chartdata"; "USGS-Topo"; "28-JAN-2023"]%string.

Definition all_removable : PathBuf -> result unit io_error := fun _ => Ok tt.

(** The scenario of the specification's section 8. *)
Definition scenario : list DirEntry :=
  [EFile (root_path ++ ["A_20230101_1200_TIF"]%string);
   EFile (root_path ++ ["A_20230215_0900_TIF"]%string);
   EFile (root_path ++ ["B_20230101_1200_TIF"]%string)].

Definition date_le (a b : Date) : Prop :=
  (year a < year b \/ (year a = year b /\ day_of_year a <= day_of_year b))%Z.

(** The order of a [BTreeSet<FoundFile>] and of a [BTreeSet<PathBuf>]. *)
Definition keep_sorted (s : list FoundFile) : Prop :=
  StronglySorted (fun x y => found_cmp (path x) (path y) = Lt) s.
Definition remove_sorted (s : list PathBuf) : Prop :=
  StronglySorted (fun x y => path_cmp x y = Lt) s.

(** What holds of the scanner state after the walk has visited the files
    [visited]: the sets are ordered, every kept file is what its path parses
    to, every removed file is dated no later than the kept file of its
    group, kept and removed paths are the visited files that parsed, and
    when the visited paths are distinct, kept and removed paths are too. *)
Definition walk_inv (basic_calendar_date : string -> result Date FormatError)
    (visited : list PathBuf) (st : ScanState) : Prop :=
  keep_sorted (to_keep st) /\ remove_sorted (to_remove st) /\
  (forall f, In f (to_keep st) ->
     parse_path basic_calendar_date (full_path f) = PParsed (path f) (date f)) /\
  (forall r, In r (to_remove st) -> exists k d,
     parse_path basic_calendar_date r = PParsed k d /\
     exists g, In g (to_keep st) /\ path g = k /\ date_le d (date g)) /\
  (forall q, (In q (map full_path (to_keep st)) \/ In q (to_remove st)) <->
     (In q visited /\ exists k d, parse_path basic_calendar_date q = PParsed k d)) /\
  (NoDup visited -> NoDup (map full_path (to_keep st)) /\
     forall q, In q (map full_path (to_keep st)) -> ~ In q (to_remove st)).

(** A [remove_file] that fails on one path. *)
Definition fail_on (bad : PathBuf) : PathBuf -> result unit io_error :=
  fun q => if list_eq_dec string_dec q bad then Err (io_error_of "Permission denied")
           else Ok tt.

(** Three versions of one tile and one other tile. *)
Definition scenario3 : list DirEntry :=
  [EDir (root_path ++ ["sub"]%string)
     [EFile (root_path ++ ["sub"; "A_20230101_1200_TIF"]%string);
      EFile (root_path ++ ["sub"; "B_20230101_1200_TIF"]%string)];
   EFile (root_path ++ ["A_20230301_1200_TIF"]%string);
   EFile (root_path ++ ["A_20230215_0900_TIF"]%string)].

(** Tiles of group [A]. *)
Definition tile_A_jan : FoundFile :=
  mkFoundFile "A" (mkDate 2023 1) (root_path ++ ["A_20230101_1200_TIF"]%string).
Definition tile_A_feb : FoundFile :=
  mkFoundFile "A" (mkDate 2023 46) (root_path ++ ["A_20230215_0900_TIF"]%string).
Definition tile_A_jan_copy : FoundFile :=
  mkFoundFile "A" (mkDate 2023 1) (root_path ++ ["sub"; "A_20230101_1200_TIF"]%string).
Definition state_jan : ScanState := mkScanState [tile_A_jan] [] [].

(** A tile whose name has two underscore-delimited fields, before two
    versions of tile [B]. *)
Definition scenario_short_name : list DirEntry :=
  [EFile (root_path ++ ["A_TIF"]%string);
   EFile (root_path ++ ["B_20230101_1200_TIF"]%string);
   EFile (root_path ++ ["B_20220101_1200_TIF"]%string)].

(** A tile whose date token is not a calendar date, between two others. *)
Definition scenario_bad_date : list DirEntry :=
  [EFile (root_path ++ ["A_20230101_1200_TIF"]%string);
   EFile (root_path ++ ["A_20239999_1200_TIF"]%string);
   EFile (root_path ++ ["A_20220101_1200_TIF"]%string)].

(** ** The [Display], [PartialEq] and [Ord] implementations *)

(** [impl Display for Error]. The [Display] of [std::io::Error] and of
    [FormatError] come from the libraries; they are left as parameters
    [io_disp] and [fmt_disp], so nothing below depends on what they print. *)
Definition error_display (io_disp : io_error -> string)
    (fmt_disp : FormatError -> string) (e : Error) : string :=
  match e with
  | IOError e => "IOError: " ++ io_disp e
  | FormatError_ e => "FormatError: " ++ fmt_disp e
  end.

(** [impl PartialEq for FoundFile]: [self.path.eq(&other.path)]. *)
Definition found_file_eq (a b : FoundFile) : bool := String.eqb (path a) (path b).

(** [impl Ord for FoundFile]: [self.path.cmp(&other.path)]. *)
Definition found_file_cmp (a b : FoundFile) : comparison := found_cmp (path a) (path b).

(** ** Helpers for statements about the whole run *)

(** Whether the character [c] occurs in [s]. *)
Fixpoint has_char (c : ascii) (s : string) : bool :=
  match s with
  | EmptyString => false
  | String a s' => Ascii.eqb a c || has_char c s'
  end.

(** The group key a path parses to, if it parses. *)
Definition parsed_key (basic_calendar_date : string -> result Date FormatError)
    (p : PathBuf) : option string :=
  match parse_path basic_calendar_date p with
  | PParsed k _ => Some k
  | _ => None
  end.

(** An entry of a subdirectory that cannot be read, between two tiles. *)
Definition scenario_io_error : list DirEntry :=
  [EFile (root_path ++ ["A_20230101_1200_TIF"]%string);
   EDir (root_path ++ ["sub"]%string)
     [EFile (root_path ++ ["sub"; "B_20230101_1200_TIF"]%string);
      EIoError (io_error_of "Permission denied")];
   EFile (root_path ++ ["A_20220101_1200_TIF"]%string)].

(** A filename with two fields inside a subdirectory. *)
Definition scenario_short_nested : list DirEntry :=
  [EFile (root_path ++ ["A_20230101_1200_TIF"]%string);
   EDir (root_path ++ ["sub"]%string) [EFile (root_path ++ ["sub"; "B_TIF"]%string)];
   EFile (root_path ++ ["A_20220101_1200_TIF"]%string)].

(** What [scenario3] leaves behind once its removals are done. *)
Definition scenario3_after : list DirEntry :=
  [EDir (root_path ++ ["sub"]%string)
     [EFile (root_path ++ ["sub"; "B_20230101_1200_TIF"]%string)];
   EFile (root_path ++ ["A_20230301_1200_TIF"]%string)].

(** The state [scenario3]'s walk ends in. *)
Definition scenario3_state : ScanState :=
  mkScanState
    [mkFoundFile "A" (mkDate 2023 60) (root_path ++ ["A_20230301_1200_TIF"]%string);
     mkFoundFile "B" (mkDate 2023 1) (root_path ++ ["sub"; "B_20230101_1200_TIF"]%string)]
    [root_path ++ ["A_20230215_0900_TIF"]%string;
     root_path ++ ["sub"; "A_20230101_1200_TIF"]%string] [].

(** * Proofs *)

(** ** Ordered sets *)

Section OrderedSetFacts.
Context {A K : Type} (key : A -> K) (cmp : K -> K -> comparison).
Hypothesis cmp_eq : forall a b, cmp a b = Eq -> a = b.
Hypothesis cmp_antisym : forall a b, cmp a b = CompOpp (cmp b a).
Hypothesis cmp_trans : forall a b c, cmp a b = Lt -> cmp b c = Lt -> cmp a c = Lt.

Let lt (x y : A) : Prop := cmp (key x) (key y) = Lt.
Let sorted (s : list A) : Prop := StronglySorted lt s.

Lemma cmp_refl : forall a, cmp a a = Eq.
Proof.
  intros a. pose proof (cmp_antisym a a) as H.
  destruct (cmp a a); simpl in H; congruence.
Qed.

Lemma cmp_Gt_Lt : forall a b, cmp a b = Gt -> cmp b a = Lt.
Proof. intros a b H. rewrite cmp_antisym, H. reflexivity. Qed.

Lemma cmp_Lt_Gt : forall a b, cmp a b = Lt -> cmp b a = Gt.
Proof. intros a b H. rewrite cmp_antisym, H. reflexivity. Qed.

Lemma set_contains_iff : forall x s,
  set_contains key cmp x s = true <-> exists y, In y s /\ key y = key x.
Proof.
  intros x s. unfold set_contains. rewrite existsb_exists. split.
  - intros [y [Hy Hc]]. exists y. split; [exact Hy|].
    destruct (cmp (key x) (key y)) eqn:E; try discriminate.
    symmetry. apply cmp_eq. exact E.
  - intros [y [Hy Hk]]. exists y. split; [exact Hy|].
    rewrite Hk, cmp_refl. reflexivity.
Qed.

Lemma set_contains_false : forall x s,
  set_contains key cmp x s = false <-> forall y, In y s -> key y <> key x.
Proof.
  intros x s. split.
  - intros H y Hy Hk. assert (set_contains key cmp x s = true) as H'
      by (apply set_contains_iff; eauto). congruence.
  - intros H. destruct (set_contains key cmp x s) eqn:E; [|reflexivity].
    apply set_contains_iff in E. destruct E as [y [Hy Hk]]. exfalso; eapply H; eauto.
Qed.

Lemma set_insert_In : forall x s z,
  In z (set_insert key cmp x s) -> z = x \/ In z s.
Proof.
  intros x s z. induction s as [|y s IH]; simpl.
  - intros [H|[]]. left; congruence.
  - destruct (cmp (key x) (key y)).
    + intros H. right. exact H.
    + intros [H|H]; [left; congruence | right; exact H].
    + intros [H|H]; [right; left; exact H|].
      destruct (IH H) as [H'|H']; [left; exact H' | right; right; exact H'].
Qed.

Lemma set_insert_fresh : forall x s,
  set_contains key cmp x s = false ->
  (forall z, In z (set_insert key cmp x s) <-> z = x \/ In z s) /\
  length (set_insert key cmp x s) = S (length s).
Proof.
  intros x s. induction s as [|y s IH]; simpl; intros H.
  - split; [|reflexivity]. intros z. split; [intros [H'|[]]; left; congruence|].
    intros [H'|[]]. left; congruence.
  - apply orb_false_iff in H. destruct H as [H1 H2].
    destruct (cmp (key x) (key y)) eqn:E; try discriminate.
    + simpl. split; [|reflexivity]. intros z. split.
      * intros [H|H]; [left; congruence | right; exact H].
      * intros [H|H]; [left; congruence | right; exact H].
    + destruct (IH H2) as [IH1 IH2]. simpl. split; [|rewrite IH2; reflexivity].
      intros z. rewrite IH1. tauto.
Qed.

Lemma set_insert_present : forall x s,
  sorted s -> set_contains key cmp x s = true -> set_insert key cmp x s = s.
Proof.
  intros x s. induction s as [|y s IH]; simpl; intros Hs H; [discriminate|].
  apply StronglySorted_inv in Hs. destruct Hs as [Hs HF].
  destruct (cmp (key x) (key y)) eqn:E.
  - reflexivity.
  - exfalso. simpl in H. apply set_contains_iff in H. destruct H as [z [Hz Hk]].
    rewrite Forall_forall in HF. specialize (HF z Hz). unfold lt in HF.
    rewrite Hk in HF. apply cmp_Lt_Gt in HF. congruence.
  - simpl in H. rewrite IH; auto.
Qed.

Lemma set_insert_sorted : forall x s, sorted s -> sorted (set_insert key cmp x s).
Proof.
  intros x s. induction s as [|y s IH]; simpl; intros Hs.
  - repeat constructor.
  - pose proof Hs as Hs0. apply StronglySorted_inv in Hs. destruct Hs as [Hs HF].
    destruct (cmp (key x) (key y)) eqn:E.
    + exact Hs0.
    + constructor; [exact Hs0|]. constructor; [exact E|].
      rewrite Forall_forall in *. intros z Hz. eapply cmp_trans; eauto. apply HF; exact Hz.
    + constructor; [apply IH; exact Hs|].
      rewrite Forall_forall in *. intros z Hz.
      destruct (set_insert_In x s z Hz) as [->|Hz']; [apply cmp_Gt_Lt; exact E|].
      apply HF; exact Hz'.
Qed.

Lemma set_take_spec : forall x s r s',
  set_take key cmp x s = (r, s') ->
  (r = None /\ s' = s /\ set_contains key cmp x s = false) \/
  (exists y pre post, r = Some y /\ s = pre ++ y :: post /\ s' = pre ++ post /\
                      key y = key x).
Proof.
  intros x s. induction s as [|y s IH]; simpl; intros r s' H.
  - inversion H; subst. left; auto.
  - destruct (cmp (key x) (key y)) eqn:E.
    + injection H as <- <-. right. exists y, [], s. repeat split.
      symmetry; apply cmp_eq; exact E.
    + destruct (set_take key cmp x s) as [r0 s0] eqn:Et. injection H as <- <-.
      destruct (IH _ _ eq_refl) as [[-> [-> Hc]]|[z [pre [post [-> [-> [-> Hk]]]]]]].
      * left. split; [reflexivity|]. split; [reflexivity|].
        exact Hc.
      * right. exists z, (y :: pre), post. repeat split. exact Hk.
    + destruct (set_take key cmp x s) as [r0 s0] eqn:Et. injection H as <- <-.
      destruct (IH _ _ eq_refl) as [[-> [-> Hc]]|[z [pre [post [-> [-> [-> Hk]]]]]]].
      * left. split; [reflexivity|]. split; [reflexivity|].
        exact Hc.
      * right. exists z, (y :: pre), post. repeat split. exact Hk.
Qed.

Lemma set_insert_perm : forall x s,
  set_contains key cmp x s = false -> Permutation (set_insert key cmp x s) (x :: s).
Proof.
  intros x s. induction s as [|y s IH]; simpl; intros H; [reflexivity|].
  apply orb_false_iff in H. destruct H as [H1 H2].
  destruct (cmp (key x) (key y)) eqn:E; try discriminate.
  - reflexivity.
  - eapply perm_trans; [apply perm_skip, IH, H2|]. apply perm_swap.
Qed.

Lemma set_take_insert_fresh : forall x s,
  set_contains key cmp x s = false ->
  set_take key cmp x (set_insert key cmp x s) = (Some x, s).
Proof.
  intros x s. induction s as [|y s IH]; simpl; intros H.
  - rewrite cmp_refl. reflexivity.
  - apply orb_false_iff in H. destruct H as [H1 H2].
    destruct (cmp (key x) (key y)) eqn:E; try discriminate; simpl.
    + rewrite cmp_refl. reflexivity.
    + rewrite E, IH by exact H2. reflexivity.
Qed.

Lemma set_take_key : forall x y s, key x = key y -> set_take key cmp x s = set_take key cmp y s.
Proof. intros x y s H. induction s as [|z s IH]; simpl; [reflexivity|]. rewrite H, IH. reflexivity. Qed.

Lemma set_insert_self : forall x s, exists y, In y (set_insert key cmp x s) /\ key y = key x.
Proof.
  intros x s. induction s as [|y s IH]; simpl.
  - exists x. split; [left; reflexivity|reflexivity].
  - destruct (cmp (key x) (key y)) eqn:E.
    + exists y. split; [left; reflexivity|]. symmetry. apply cmp_eq. exact E.
    + exists x. split; [left; reflexivity|reflexivity].
    + destruct IH as [z [Hz Hk]]. exists z. split; [right; exact Hz|exact Hk].
Qed.

Lemma sorted_remove_mid : forall pre y post,
  sorted (pre ++ y :: post) -> sorted (pre ++ post).
Proof.
  intros pre. induction pre as [|z pre IH]; simpl; intros y post H.
  - apply StronglySorted_inv in H. tauto.
  - apply StronglySorted_inv in H. destruct H as [H HF]. constructor; [eapply IH; exact H|].
    rewrite Forall_forall in *. intros w Hw. apply HF.
    apply in_app_or in Hw. apply in_or_app. simpl. tauto.
Qed.

Lemma sorted_keys_unique : forall s y z,
  sorted s -> In y s -> In z s -> key y = key z -> y = z.
Proof.
  intros s. induction s as [|w s IH]; simpl; intros y z Hs Hy Hz Hk; [contradiction|].
  apply StronglySorted_inv in Hs. destruct Hs as [Hs HF]. rewrite Forall_forall in HF.
  destruct Hy as [<-|Hy]; destruct Hz as [<-|Hz]; auto.
  - specialize (HF z Hz). unfold lt in HF. rewrite Hk, cmp_refl in HF. discriminate.
  - specialize (HF y Hy). unfold lt in HF. rewrite Hk, cmp_refl in HF. discriminate.
Qed.

Lemma sorted_NoDup_keys : forall s, sorted s -> NoDup (map key s).
Proof.
  intros s. induction s as [|w s IH]; simpl; intros Hs; constructor.
  - intros Hin. apply in_map_iff in Hin. destruct Hin as [z [Hk Hz]].
    apply StronglySorted_inv in Hs. destruct Hs as [_ HF]. rewrite Forall_forall in HF.
    specialize (HF z Hz). unfold lt in HF. rewrite Hk, cmp_refl in HF. discriminate.
  - apply IH. apply StronglySorted_inv in Hs. tauto.
Qed.

End OrderedSetFacts.

(** ** The orders of group keys, paths and dates *)

Lemma ascii_compare_trans : forall a b c,
  Ascii.compare a b = Lt -> Ascii.compare b c = Lt -> Ascii.compare a c = Lt.
Proof.
  unfold Ascii.compare. intros a b c H1 H2.
  apply N.compare_lt_iff in H1, H2. apply N.compare_lt_iff. eapply N.lt_trans; eauto.
Qed.

Lemma ascii_compare_refl : forall a, Ascii.compare a a = Eq.
Proof. intros a. unfold Ascii.compare. apply N.compare_refl. Qed.

Lemma string_compare_trans : forall a b c,
  String.compare a b = Lt -> String.compare b c = Lt -> String.compare a c = Lt.
Proof.
  induction a as [|x a IH]; intros [|y b] [|z c]; simpl; try discriminate; auto.
  destruct (Ascii.compare x y) eqn:Exy; try discriminate;
  destruct (Ascii.compare y z) eqn:Eyz; try discriminate; intros H1 H2.
  - apply Ascii.compare_eq_iff in Exy, Eyz. subst. rewrite ascii_compare_refl. eauto.
  - apply Ascii.compare_eq_iff in Exy. subst. rewrite Eyz. reflexivity.
  - apply Ascii.compare_eq_iff in Eyz. subst. rewrite Exy. reflexivity.
  - rewrite (ascii_compare_trans _ _ _ Exy Eyz). reflexivity.
Qed.

Lemma string_compare_refl : forall s, String.compare s s = Eq.
Proof. exact (cmp_refl String.compare String.compare_antisym). Qed.

Lemma path_cmp_eq : forall p q, path_cmp p q = Eq -> p = q.
Proof.
  induction p as [|c p IH]; intros [|d q]; simpl; try discriminate; auto.
  destruct (String.compare c d) eqn:E; try discriminate. intros H.
  apply String.compare_eq_iff in E. f_equal; auto.
Qed.

Lemma path_cmp_antisym : forall p q, path_cmp p q = CompOpp (path_cmp q p).
Proof.
  induction p as [|c p IH]; intros [|d q]; simpl; auto.
  rewrite (String.compare_antisym c d).
  destruct (String.compare d c); simpl; auto.
Qed.

Lemma path_cmp_trans : forall p q r,
  path_cmp p q = Lt -> path_cmp q r = Lt -> path_cmp p r = Lt.
Proof.
  induction p as [|c p IH]; intros [|d q] [|e r]; simpl; try discriminate; auto.
  destruct (String.compare c d) eqn:Ecd; try discriminate;
  destruct (String.compare d e) eqn:Ede; try discriminate; intros H1 H2.
  - apply String.compare_eq_iff in Ecd, Ede. subst. rewrite string_compare_refl. eauto.
  - apply String.compare_eq_iff in Ecd. subst. rewrite Ede. reflexivity.
  - apply String.compare_eq_iff in Ede. subst. rewrite Ecd. reflexivity.
  - rewrite (string_compare_trans _ _ _ Ecd Ede). reflexivity.
Qed.


Lemma date_lt_true : forall a b, date_lt a b = true <->
  (year a < year b \/ (year a = year b /\ day_of_year a < day_of_year b))%Z.
Proof.
  intros a b. unfold date_lt. rewrite orb_true_iff, andb_true_iff, Z.ltb_lt, Z.eqb_eq, Z.ltb_lt.
  tauto.
Qed.

Lemma date_lt_false : forall a b, date_lt a b = false <-> date_le b a.
Proof.
  intros a b. unfold date_le. split.
  - intros H. destruct (date_lt a b) eqn:E; [discriminate|].
    assert (~ (year a < year b \/ (year a = year b /\ day_of_year a < day_of_year b))%Z)
      by (rewrite <- date_lt_true; congruence). lia.
  - intros H. destruct (date_lt a b) eqn:E; [|reflexivity].
    apply date_lt_true in E. lia.
Qed.

Lemma date_le_trans : forall a b c, date_le a b -> date_le b c -> date_le a c.
Proof. unfold date_le. intros a b c. lia. Qed.

Lemma date_lt_le : forall a b, date_lt a b = true -> date_le a b.
Proof. intros a b H. apply date_lt_true in H. unfold date_le. lia. Qed.

Lemma date_neq_total : forall a b, a <> b -> date_lt a b = true \/ date_lt b a = true.
Proof.
  intros [ya da] [yb db] Hne. rewrite !date_lt_true. simpl.
  destruct (Z.lt_total ya yb) as [H|[H|H]]; try lia. subst.
  destruct (Z.lt_total da db) as [H|[H|H]]; try lia. subst. congruence.
Qed.

Lemma date_lt_irrefl : forall a, date_lt a a = false.
Proof. intros a. apply date_lt_false. unfold date_le. lia. Qed.

(** ** The two sets of the scanner *)

Ltac order_facts :=
  first [ exact String.compare_eq_iff | exact String.compare_antisym
        | exact string_compare_trans | exact path_cmp_eq | exact path_cmp_antisym
        | exact path_cmp_trans ].

Lemma keep_contains_false : forall f s,
  keep_contains f s = false <-> forall g, In g s -> path g <> path f.
Proof. intros. unfold keep_contains, found_cmp. eapply set_contains_false; order_facts. Qed.

Lemma keep_contains_true : forall f s,
  keep_contains f s = true <-> exists g, In g s /\ path g = path f.
Proof. intros. unfold keep_contains, found_cmp. eapply set_contains_iff; order_facts. Qed.

Lemma keep_insert_sorted : forall f s, keep_sorted s -> keep_sorted (keep_insert f s).
Proof. intros. unfold keep_insert, keep_sorted, found_cmp in *. eapply set_insert_sorted; eauto; order_facts. Qed.

Lemma keep_insert_perm : forall f s,
  keep_contains f s = false -> Permutation (keep_insert f s) (f :: s).
Proof. intros. unfold keep_insert, keep_contains, found_cmp in *. apply set_insert_perm; auto. Qed.

Lemma keep_unique : forall s g h,
  keep_sorted s -> In g s -> In h s -> path g = path h -> g = h.
Proof. intros. unfold keep_sorted, found_cmp in *. eapply sorted_keys_unique; eauto; order_facts. Qed.

Lemma remove_insert_sorted : forall p s, remove_sorted s -> remove_sorted (remove_insert p s).
Proof. intros. unfold remove_insert, remove_sorted in *. eapply set_insert_sorted; eauto; order_facts. Qed.

Lemma remove_insert_In : forall p s q,
  remove_sorted s -> (In q (remove_insert p s) <-> q = p \/ In q s).
Proof.
  intros p s q Hs. unfold remove_insert.
  destruct (set_contains (fun q => q) path_cmp p s) eqn:Hc.
  - rewrite set_insert_present; auto; try order_facts.
    apply set_contains_iff in Hc; try order_facts. destruct Hc as [y [Hy <-]].
    split; [tauto|]. intros [->|H]; auto.
  - apply set_insert_fresh; auto.
Qed.

Lemma remove_insert_fresh : forall p s,
  ~ In p s -> length (remove_insert p s) = S (length s).
Proof.
  intros p s Hp. unfold remove_insert. apply set_insert_fresh.
  destruct (set_contains (fun q => q) path_cmp p s) eqn:Hc; [|reflexivity].
  apply set_contains_iff in Hc; try order_facts. destruct Hc as [y [Hy <-]]. contradiction.
Qed.

Lemma remove_insert_self : forall p s, In p (remove_insert p s).
Proof.
  intros p s. unfold remove_insert.
  destruct (set_insert_self (fun q => q) path_cmp path_cmp_eq p s) as [y [Hy ->]]. exact Hy.
Qed.

Lemma remove_insert_fresh_In : forall p s q,
  ~ In p s -> (In q (remove_insert p s) <-> q = p \/ In q s).
Proof.
  intros p s q Hp. unfold remove_insert. apply set_insert_fresh.
  destruct (set_contains (fun q => q) path_cmp p s) eqn:Hc; [|reflexivity].
  apply set_contains_iff in Hc; try order_facts. destruct Hc as [y [Hy <-]]. contradiction.
Qed.

Lemma date_lt_asym : forall a b, date_lt a b = true -> date_lt b a = false.
Proof. intros a b H. apply date_lt_true in H. apply date_lt_false. unfold date_le. lia. Qed.

Lemma dedup_new : forall f st,
  (forall g, In g (to_keep st) -> path g <> path f) ->
  dedup f st = Returned (mkScanState (keep_insert f (to_keep st)) (to_remove st) (error_log st)).
Proof.
  intros f st H. unfold dedup. apply keep_contains_false in H. rewrite H. reflexivity.
Qed.

(** A second file of a group that had no kept file before the first one. *)
Lemma dedup_second : forall f1 f2 keep remove log,
  path f1 = path f2 -> (forall g, In g keep -> path g <> path f1) ->
  dedup f2 (mkScanState (keep_insert f1 keep) remove log) =
  Returned (if date_lt (date f1) (date f2)
            then mkScanState (keep_insert f2 keep) (remove_insert (full_path f1) remove) log
            else mkScanState (keep_insert f1 keep) (remove_insert (full_path f2) remove) log).
Proof.
  intros f1 f2 keep remove log Hk H. apply keep_contains_false in H.
  unfold dedup. simpl.
  assert (Hc : keep_contains f2 (keep_insert f1 keep) = true).
  { apply keep_contains_true. exists f1. split; [|exact Hk].
    apply (Permutation_in _ (Permutation_sym (keep_insert_perm f1 keep H))). left; reflexivity. }
  rewrite Hc. unfold keep_take, keep_insert, found_cmp.
  rewrite (set_take_key path String.compare f2 f1) by (symmetry; exact Hk).
  rewrite set_take_insert_fresh; try order_facts; [|exact H].
  destruct (date_lt (date f1) (date f2)); reflexivity.
Qed.

(** The deduplication step never reaches its [unwrap] failure, and does one
    of three things. *)
Lemma dedup_cases : forall f st,
  keep_sorted (to_keep st) ->
  exists st', dedup f st = Returned st' /\ error_log st' = error_log st /\
  keep_sorted (to_keep st') /\
  ( ((forall g, In g (to_keep st) -> path g <> path f) /\
     to_keep st' = keep_insert f (to_keep st) /\
     Permutation (to_keep st') (f :: to_keep st) /\ to_remove st' = to_remove st)
  \/ (exists old rest,
       Permutation (to_keep st) (old :: rest) /\ path old = path f /\
       keep_contains f rest = false /\
       ((date_lt (date old) (date f) = true /\
         to_keep st' = keep_insert f rest /\
         Permutation (to_keep st') (f :: rest) /\
         to_remove st' = remove_insert (full_path old) (to_remove st))
       \/ (date_lt (date old) (date f) = false /\
         to_keep st' = keep_insert old rest /\
         Permutation (to_keep st') (old :: rest) /\
         to_remove st' = remove_insert (full_path f) (to_remove st))))).
Proof.
  intros f st Hs. unfold dedup.
  destruct (keep_contains f (to_keep st)) eqn:Hc.
  - destruct (keep_take f (to_keep st)) as [r rest] eqn:Ht.
    unfold keep_take, found_cmp in Ht. apply set_take_spec in Ht; try order_facts.
    destruct Ht as [[_ [_ Hc']]|[old [pre [post [-> [Hk [-> Hpath]]]]]]].
    { exfalso. unfold keep_contains, found_cmp in Hc. congruence. }
    assert (Hfresh : keep_contains f (pre ++ post) = false).
    { apply keep_contains_false. intros g Hg Hgk.
      assert (Hsorted' := Hs). rewrite Hk in Hsorted'.
      assert (g = old).
      { eapply keep_unique; [exact Hsorted'| | |congruence].
        - apply in_app_or in Hg. apply in_or_app. simpl. tauto.
        - apply in_or_app. simpl. tauto. }
      subst g. unfold keep_sorted, found_cmp in Hsorted'.
      pose proof (sorted_NoDup_keys path String.compare String.compare_antisym _ Hsorted') as Hnd.
      rewrite map_app in Hnd. simpl in Hnd. apply NoDup_remove_2 in Hnd.
      apply Hnd. rewrite <- map_app. apply in_map. exact Hg. }
    assert (Hsr : keep_sorted (pre ++ post)).
    { rewrite Hk in Hs. unfold keep_sorted in *. eapply sorted_remove_mid; exact Hs. }
    destruct (date_lt (date old) (date f)) eqn:Hd.
    + eexists. split; [reflexivity|]. simpl. split; [reflexivity|].
      split; [apply keep_insert_sorted; exact Hsr|].
      right. exists old, (pre ++ post). rewrite Hk. split; [apply Permutation_sym, Permutation_middle|].
      split; [exact Hpath|]. split; [exact Hfresh|]. left.
      split; [exact Hd|]. split; [reflexivity|]. split; [apply keep_insert_perm; exact Hfresh|].
      reflexivity.
    + eexists. split; [reflexivity|]. simpl. split; [reflexivity|].
      split; [apply keep_insert_sorted; exact Hsr|].
      right. exists old, (pre ++ post). rewrite Hk. split; [apply Permutation_sym, Permutation_middle|].
      split; [exact Hpath|]. split; [exact Hfresh|]. right.
      split; [exact Hd|]. split; [reflexivity|].
      split; [apply keep_insert_perm; apply keep_contains_false; intros g Hg; rewrite Hpath;
              apply (proj1 (keep_contains_false f _) Hfresh g Hg)|].
      reflexivity.
  - eexists. split; [reflexivity|]. simpl. split; [reflexivity|].
    split; [apply keep_insert_sorted; exact Hs|].
    left. split; [apply keep_contains_false; exact Hc|]. split; [reflexivity|].
    split; [apply keep_insert_perm; exact Hc|]. reflexivity.
Qed.

(** ** The walk as a sequence of files *)

Lemma bind_returned : forall {T} (o : outcome T), bind_outcome o Returned = o.
Proof. intros T [t|e|]; reflexivity. Qed.

Lemma bind_assoc : forall {T U V} (o : outcome T) (k1 : T -> outcome U) (k2 : U -> outcome V),
  bind_outcome (bind_outcome o k1) k2 = bind_outcome o (fun t => bind_outcome (k1 t) k2).
Proof. intros T U V [t|e|] k1 k2; reflexivity. Qed.

Lemma bind_ext : forall {T U} (o : outcome T) (k1 k2 : T -> outcome U),
  (forall t, k1 t = k2 t) -> bind_outcome o k1 = bind_outcome o k2.
Proof. intros T U [t|e|] k1 k2 H; simpl; auto. Qed.

Section Walk.
Variable basic_calendar_date : string -> result Date FormatError.

Lemma scan_items_app : forall l1 l2 st,
  scan_items basic_calendar_date (l1 ++ l2) st =
  bind_outcome (scan_items basic_calendar_date l1 st) (scan_items basic_calendar_date l2).
Proof.
  induction l1 as [|[p|e] l1 IH]; intros l2 st; simpl.
  - reflexivity.
  - rewrite bind_assoc. apply bind_ext. intros t. apply IH.
  - reflexivity.
Qed.

Lemma scan_dir_items : forall e st,
  scan_dir_and_recurse basic_calendar_date e st =
  scan_items basic_calendar_date (walk_items e) st.
Proof.
  fix IH 1. intros [p|p cs|err] st; simpl.
  - rewrite bind_returned. reflexivity.
  - revert st. induction cs as [|d ds IHcs]; intros st; simpl; [reflexivity|].
    rewrite scan_items_app, IH. apply bind_ext. intros t. apply IHcs.
  - reflexivity.
Qed.

Lemma scan_entries_items : forall dirs st,
  scan_entries basic_calendar_date dirs st =
  scan_items basic_calendar_date (walk_items_list dirs) st.
Proof.
  induction dirs as [|d ds IH]; intros st; simpl; [reflexivity|].
  unfold walk_items_list in *. simpl.
  rewrite scan_items_app, scan_dir_items. apply bind_ext. intros t. apply IH.
Qed.

End Walk.

(** ** The walk invariant *)

Lemma perm_In_iff : forall {T} (l l' : list T) x, Permutation l l' -> (In x l <-> In x l').
Proof.
  intros T l l' x H. split; intros Hx; [eapply Permutation_in; eauto|].
  eapply Permutation_in; [apply Permutation_sym; exact H| exact Hx].
Qed.

Lemma In_paths : forall q (l : list FoundFile),
  In q (map full_path l) <-> exists g, full_path g = q /\ In g l.
Proof. intros. apply in_map_iff. Qed.

Section Invariant.
Variable basic_calendar_date : string -> result Date FormatError.

Lemma walk_inv_empty : walk_inv basic_calendar_date [] empty_state.
Proof.
  unfold walk_inv; simpl. repeat split; try constructor; try tauto.
Qed.

Lemma NoDup_snoc : forall (vis : list PathBuf) p,
  NoDup (vis ++ [p]) -> NoDup vis /\ ~ In p vis.
Proof.
  intros vis p H. split; [eapply NoDup_app_remove_r; exact H|].
  apply NoDup_remove_2 in H. rewrite app_nil_r in H. exact H.
Qed.

Lemma scan_file_inv : forall vis p st st',
  walk_inv basic_calendar_date vis st ->
  scan_file basic_calendar_date p st = Returned st' ->
  walk_inv basic_calendar_date (vis ++ [p]) st'.
Proof.
  intros vis p st st' Hinv Hscan.
  destruct Hinv as [Hks [Hrs [Hkept [Hrem [Hunion Hnd]]]]].
  unfold scan_file in Hscan. destruct (parse_path basic_calendar_date p) eqn:Hp;
    try discriminate.
  - (* no date token: logged and skipped *)
    injection Hscan as <-. unfold walk_inv; simpl.
    split; [exact Hks|]. split; [exact Hrs|]. split; [exact Hkept|]. split; [exact Hrem|].
    split.
    + intros q. rewrite Hunion, in_app_iff. simpl. split.
      * intros [Hq Hpq]. tauto.
      * intros [[Hq|[<-|[]]] Hpq]; [tauto|]. destruct Hpq as [k [d Hpq]]. congruence.
    + intros H. apply NoDup_snoc in H. apply Hnd. tauto.
  - (* parsed: the deduplication step *)
    set (f := mkFoundFile key d p).
    destruct (dedup_cases f st Hks) as [st1 [Hd [_ [Hks' Hcase]]]].
    fold f in Hscan. rewrite Hd in Hscan. injection Hscan as <-.
    assert (Hpf : parse_path basic_calendar_date (full_path f) = PParsed (path f) (date f))
      by exact Hp.
    assert (Hunion_p : forall q, In q (vis ++ [p]) /\
              (exists k d, parse_path basic_calendar_date q = PParsed k d) <->
              q = p \/ (In q vis /\ exists k d, parse_path basic_calendar_date q = PParsed k d)).
    { intros q. rewrite in_app_iff. simpl. split.
      - intros [[Hq|[<-|[]]] Hpq]; tauto.
      - intros [->|[Hq Hpq]]; [|tauto]. split; [tauto|]. eauto. }
    destruct Hcase as [[Hnew [_ [Hperm Hr]]]|[old [rest [Hperm0 [Hpath [_ [
        [Hlt [_ [Hperm Hr]]]|[Hlt [_ [Hperm Hr]]]]]]]]]].
    + (* first file of its group *)
      assert (Hin : forall g, In g (to_keep st1) <-> g = f \/ In g (to_keep st)).
      { intros g. rewrite (perm_In_iff _ _ _ Hperm). simpl. split; intros [H|H]; auto. }
      unfold walk_inv. rewrite Hr.
      split; [exact Hks'|]. split; [exact Hrs|].
      split; [intros g Hg; apply Hin in Hg; destruct Hg as [Hg|Hg]; [subst g|]; auto|].
      split.
      { intros r Hr'. destruct (Hrem r Hr') as [k [d' [Hk [g [Hg Hgd]]]]].
        exists k, d'. split; [exact Hk|]. exists g. split; [apply Hin; auto|exact Hgd]. }
      split.
      { intros q. rewrite Hunion_p, <- Hunion, !In_paths. split.
        - intros [[g [Hgq Hg]]|Hq].
          + apply Hin in Hg. destruct Hg as [Hg|Hg]; [subst g; left; rewrite <- Hgq; reflexivity|].
            right. left. eauto.
          + right. right. exact Hq.
        - intros [Hq|[[g [Hgq Hg]]|Hq]].
          + left. exists f. split; [symmetry; exact Hq|apply Hin; auto].
          + left. exists g. split; [exact Hgq|apply Hin; auto].
          + right. exact Hq. }
      intros Hnd'. apply NoDup_snoc in Hnd'. destruct Hnd' as [Hndv Hpv].
      destruct (Hnd Hndv) as [Hndk Hdis].
      assert (Hpk : ~ In p (map full_path (to_keep st)) /\ ~ In p (to_remove st)).
      { split; intros H; apply Hpv; apply (Hunion p); auto. }
      split.
      { eapply Permutation_NoDup; [apply Permutation_sym, Permutation_map, Hperm|].
        simpl. constructor; [exact (proj1 Hpk)|exact Hndk]. }
      intros q Hq. rewrite In_paths in Hq. destruct Hq as [g [<- Hg]].
      apply Hin in Hg. destruct Hg as [Hg|Hg]; [subst g; exact (proj2 Hpk)|].
      apply Hdis. apply in_map. exact Hg.
    + (* a newer file replaces the kept one *)
      assert (Hin0 : forall g, In g (to_keep st) <-> g = old \/ In g rest).
      { intros g. rewrite (perm_In_iff _ _ _ Hperm0). simpl. split; intros [H|H]; auto. }
      assert (Hin : forall g, In g (to_keep st1) <-> g = f \/ In g rest).
      { intros g. rewrite (perm_In_iff _ _ _ Hperm). simpl. split; intros [H|H]; auto. }
      assert (Hold : In old (to_keep st)) by (apply Hin0; auto).
      unfold walk_inv. rewrite Hr.
      split; [exact Hks'|]. split; [apply remove_insert_sorted; exact Hrs|].
      split.
      { intros g Hg. apply Hin in Hg. destruct Hg as [Hg|Hg]; [subst g; exact Hpf|].
        apply Hkept. apply Hin0. auto. }
      split.
      { intros r Hr'. apply (remove_insert_In _ _ _ Hrs) in Hr'. destruct Hr' as [Hr'|Hr'].
        - subst r. exists (path old), (date old). split; [apply Hkept; exact Hold|].
          exists f. split; [apply Hin; auto|]. split; [symmetry; exact Hpath|].
          apply date_lt_le. exact Hlt.
        - destruct (Hrem r Hr') as [k [d' [Hk [g [Hg [Hgk Hgd]]]]]].
          exists k, d'. split; [exact Hk|]. apply Hin0 in Hg. destruct Hg as [Hg|Hg].
          + subst g. exists f. split; [apply Hin; auto|].
            split; [rewrite <- Hpath; exact Hgk|].
            eapply date_le_trans; [exact Hgd|apply date_lt_le; exact Hlt].
          + exists g. split; [apply Hin; auto|]. auto. }
      split.
      { intros q. rewrite Hunion_p, <- Hunion, !In_paths, (remove_insert_In _ _ _ Hrs). split.
        - intros [[g [Hgq Hg]]|[Hq|Hq]].
          + apply Hin in Hg. destruct Hg as [Hg|Hg].
            * subst g. left. rewrite <- Hgq. reflexivity.
            * right. left. exists g. split; [exact Hgq|apply Hin0; auto].
          + right. left. exists old. split; [symmetry; exact Hq|exact Hold].
          + right. right. exact Hq.
        - intros [Hq|[[g [Hgq Hg]]|Hq]].
          + left. exists f. split; [symmetry; exact Hq|apply Hin; auto].
          + apply Hin0 in Hg. destruct Hg as [Hg|Hg].
            * subst g. right. left. symmetry. exact Hgq.
            * left. exists g. split; [exact Hgq|apply Hin; auto].
          + right. right. exact Hq. }
      intros Hnd'. apply NoDup_snoc in Hnd'. destruct Hnd' as [Hndv Hpv].
      destruct (Hnd Hndv) as [Hndk Hdis].
      assert (Hpk : ~ In p (map full_path (to_keep st)) /\ ~ In p (to_remove st)).
      { split; intros H; apply Hpv; apply (Hunion p); auto. }
      assert (Hndk0 : NoDup (full_path old :: map full_path rest)).
      { pose proof (Permutation_map full_path Hperm0) as H. simpl in H.
        eapply Permutation_NoDup; [exact H|exact Hndk]. }
      apply NoDup_cons_iff in Hndk0. destruct Hndk0 as [Hold_notin Hndrest].
      split.
      { eapply Permutation_NoDup; [apply Permutation_sym, Permutation_map, Hperm|].
        simpl. constructor; [|exact Hndrest]. intros H. apply (proj1 Hpk).
        rewrite In_paths in *. destruct H as [g [Hgq Hg]].
        exists g. split; [exact Hgq|apply Hin0; auto]. }
      intros q Hq. rewrite (remove_insert_In _ _ _ Hrs). rewrite In_paths in Hq.
      destruct Hq as [g [Hgq Hg]]. subst q. apply Hin in Hg. destruct Hg as [Hg|Hg].
      * subst g. intros [Heq|Hq].
        -- apply (proj1 Hpk). rewrite In_paths. exists old.
           split; [rewrite <- Heq; reflexivity|exact Hold].
        -- exact (proj2 Hpk Hq).
      * intros [Heq|Hq].
        -- apply Hold_notin. rewrite <- Heq. apply in_map. exact Hg.
        -- apply (Hdis (full_path g)); [apply in_map; apply Hin0; auto|exact Hq].
    + (* the kept file stays *)
      assert (Hin : forall g, In g (to_keep st1) <-> In g (to_keep st)).
      { intros g. rewrite (perm_In_iff _ _ _ Hperm), (perm_In_iff _ _ _ Hperm0). tauto. }
      assert (Hold : In old (to_keep st1)).
      { apply (perm_In_iff _ _ _ Hperm). simpl. auto. }
      unfold walk_inv. rewrite Hr.
      split; [exact Hks'|]. split; [apply remove_insert_sorted; exact Hrs|].
      split; [intros g Hg; apply Hkept, Hin, Hg|].
      split.
      { intros r Hr'. apply (remove_insert_In _ _ _ Hrs) in Hr'. destruct Hr' as [Hr'|Hr'].
        - subst r. exists (path f), (date f). split; [exact Hpf|].
          exists old. split; [exact Hold|]. split; [exact Hpath|].
          apply date_lt_false. exact Hlt.
        - destruct (Hrem r Hr') as [k [d' [Hk [g [Hg Hgd]]]]].
          exists k, d'. split; [exact Hk|]. exists g. split; [apply Hin; exact Hg|exact Hgd]. }
      assert (Hpaths : forall q, In q (map full_path (to_keep st1)) <->
                                 In q (map full_path (to_keep st))).
      { intros q. rewrite !In_paths. split; intros [g [Hgq Hg]]; exists g;
          split; auto; apply Hin; auto. }
      split.
      { intros q. rewrite Hunion_p, <- Hunion, Hpaths, (remove_insert_In _ _ _ Hrs). tauto. }
      intros Hnd'. apply NoDup_snoc in Hnd'. destruct Hnd' as [Hndv Hpv].
      destruct (Hnd Hndv) as [Hndk Hdis].
      assert (Hpk : ~ In p (map full_path (to_keep st))).
      { intros H; apply Hpv; apply (Hunion p); auto. }
      split.
      { eapply Permutation_NoDup; [|exact Hndk]. apply Permutation_map.
        eapply perm_trans; [exact Hperm0|]. apply Permutation_sym. exact Hperm. }
      intros q Hq. apply Hpaths in Hq. rewrite (remove_insert_In _ _ _ Hrs).
      intros [Heq|Hq']; [apply Hpk; rewrite Heq in Hq; exact Hq|exact (Hdis q Hq Hq')].
Qed.
Lemma scan_items_inv : forall l vis st st',
  walk_inv basic_calendar_date vis st ->
  scan_items basic_calendar_date l st = Returned st' ->
  walk_inv basic_calendar_date (vis ++ item_files l) st'.
Proof.
  induction l as [|[p|e] l IH]; intros vis st st' Hinv Hscan; simpl in *.
  - injection Hscan as <-. rewrite app_nil_r. exact Hinv.
  - destruct (scan_file basic_calendar_date p st) as [st1|e|] eqn:Hs; simpl in Hscan;
      try discriminate.
    replace (vis ++ p :: item_files l) with ((vis ++ [p]) ++ item_files l)
      by (rewrite <- app_assoc; reflexivity).
    eapply IH; [eapply scan_file_inv; eauto|exact Hscan].
  - discriminate.
Qed.

Lemma scan_entries_inv : forall dirs st,
  scan_entries basic_calendar_date dirs empty_state = Returned st ->
  walk_inv basic_calendar_date (item_files (walk_items_list dirs)) st.
Proof.
  intros dirs st H. rewrite scan_entries_items in H.
  apply (scan_items_inv _ [] _ _ walk_inv_empty H).
Qed.

End Invariant.

Lemma remove_all_fails_at : forall rm pre f post e,
  (forall q, In q pre -> rm q = Ok tt) -> rm f = Err e ->
  remove_all rm (pre ++ f :: post) = (pre ++ [f], Failed (IOError e)).
Proof.
  intros rm pre f post e. induction pre as [|q pre IH]; intros Hpre Hf; simpl.
  - rewrite Hf. reflexivity.
  - rewrite (Hpre q) by (left; reflexivity).
    rewrite IH; [reflexivity| |exact Hf]. intros; apply Hpre; right; auto.
Qed.

Lemma remove_all_succeeds : forall rm l,
  (forall q, In q l -> rm q = Ok tt) -> remove_all rm l = (l, Returned tt).
Proof.
  intros rm l. induction l as [|q l IH]; intros Hl; simpl; [reflexivity|].
  rewrite (Hl q) by (left; reflexivity).
  rewrite IH; [reflexivity|]. intros; apply Hl; right; auto.
Qed.

(** ** Claims about the whole run *)

(** C2: at the end of a successful walk the kept set holds at most one file
    per group key, and the kept file of a group is dated no earlier than any
    removed file of that group. *)
Theorem keep_one_newest_per_group :
  forall (basic_calendar_date : string -> result Date FormatError) dirs st,
  scan_entries basic_calendar_date dirs empty_state = Returned st ->
  NoDup (map path (to_keep st)) /\
  (forall f r d, In f (to_keep st) -> In r (to_remove st) ->
     parse_path basic_calendar_date r = PParsed (path f) d -> date_le d (date f)).
Proof.
  intros P dirs st H. apply scan_entries_inv in H.
  destruct H as [Hks [_ [_ [Hrem _]]]]. split.
  - unfold keep_sorted, found_cmp in Hks.
    exact (sorted_NoDup_keys path String.compare String.compare_antisym _ Hks).
  - intros f r d Hf Hr Hp. destruct (Hrem r Hr) as [k [d' [Hk [g [Hg [Hgk Hgd]]]]]].
    rewrite Hp in Hk. injection Hk as Hk1 Hk2. subst k d'.
    assert (g = f) as -> by (eapply keep_unique; eauto). exact Hgd.
Qed.

Lemma keep_one_newest_per_group_witness :
  NoDup (map path (to_keep (mkScanState
    [mkFoundFile "A" (mkDate 2023 60) (root_path ++ ["A_20230301_1200_TIF"]%string);
     mkFoundFile "B" (mkDate 2023 1) (root_path ++ ["sub"; "B_20230101_1200_TIF"]%string)]
    [root_path ++ ["A_20230215_0900_TIF"]%string;
     root_path ++ ["sub"; "A_20230101_1200_TIF"]%string] []))).
Proof.
  refine (proj1 (keep_one_newest_per_group parse_basic_calendar_date scenario3 _ _)).
  vm_compute. reflexivity.
Defined.

(** C3: after a successful walk over distinct paths, kept and removed paths
    are disjoint and together are exactly the visited files that parsed. *)
Theorem keep_remove_partition :
  forall (basic_calendar_date : string -> result Date FormatError) dirs st,
  NoDup (item_files (walk_items_list dirs)) ->
  scan_entries basic_calendar_date dirs empty_state = Returned st ->
  (forall q, In q (map full_path (to_keep st)) -> ~ In q (to_remove st)) /\
  (forall q, In q (map full_path (to_keep st)) \/ In q (to_remove st) <->
     In q (item_files (walk_items_list dirs)) /\
     exists k d, parse_path basic_calendar_date q = PParsed k d).
Proof.
  intros P dirs st Hnd H. apply scan_entries_inv in H.
  destruct H as [_ [_ [_ [_ [Hunion Hdis]]]]]. split.
  - apply (proj2 (Hdis Hnd)).
  - exact Hunion.
Qed.

Lemma keep_remove_partition_witness :
  NoDup (item_files (walk_items_list scenario3)) /\
  (forall q, In q (map full_path (to_keep (mkScanState
    [mkFoundFile "A" (mkDate 2023 60) (root_path ++ ["A_20230301_1200_TIF"]%string);
     mkFoundFile "B" (mkDate 2023 1) (root_path ++ ["sub"; "B_20230101_1200_TIF"]%string)]
    [root_path ++ ["A_20230215_0900_TIF"]%string;
     root_path ++ ["sub"; "A_20230101_1200_TIF"]%string] []))) ->
   ~ In q [root_path ++ ["A_20230215_0900_TIF"]%string;
           root_path ++ ["sub"; "A_20230101_1200_TIF"]%string]).
Proof.
  assert (Hnd : NoDup (item_files (walk_items_list scenario3))).
  { vm_compute. repeat constructor; simpl; intuition discriminate. }
  split; [exact Hnd|].
  exact (proj1 (keep_remove_partition parse_basic_calendar_date scenario3 _ Hnd
                 ltac:(vm_compute; reflexivity))).
Defined.

(** C8: after a successful walk the paths to remove are in [Path] order;
    [main] deletes them in that order and stops at the first failing
    deletion, with its error, never reaching the later paths. *)
Theorem deletion_sorted_stops_at_failure :
  forall (basic_calendar_date : string -> result Date FormatError)
         (remove_file : PathBuf -> result unit io_error) dirs st,
  scan_entries basic_calendar_date dirs empty_state = Returned st ->
  remove_sorted (to_remove st) /\
  (forall pre f post e, to_remove st = pre ++ f :: post ->
     (forall q, In q pre -> remove_file q = Ok tt) -> remove_file f = Err e ->
     main basic_calendar_date remove_file dirs = (pre ++ [f], Failed (IOError e))) /\
  ((forall q, In q (to_remove st) -> remove_file q = Ok tt) ->
     main basic_calendar_date remove_file dirs =
       (to_remove st, Returned (length (to_keep st), length (to_remove st)))).
Proof.
  intros P rm dirs st H. pose proof (scan_entries_inv P dirs st H) as Hinv.
  destruct Hinv as [_ [Hrs _]]. split; [exact Hrs|]. unfold main. rewrite H. split.
  - intros pre f post e Hsplit Hpre Hf. rewrite Hsplit, (remove_all_fails_at rm pre f post e Hpre Hf).
    reflexivity.
  - intros Hall. rewrite remove_all_succeeds by assumption. reflexivity.
Qed.

Lemma deletion_sorted_stops_at_failure_witness :
  main parse_basic_calendar_date (fail_on (root_path ++ ["A_20230215_0900_TIF"]%string))
       scenario3 =
  ([root_path ++ ["A_20230215_0900_TIF"]%string],
   Failed (IOError (io_error_of "Permission denied"))).
Proof.
  refine (proj1 (proj2 (deletion_sorted_stops_at_failure parse_basic_calendar_date
            (fail_on (root_path ++ ["A_20230215_0900_TIF"]%string)) scenario3
            (mkScanState
              [mkFoundFile "A" (mkDate 2023 60) (root_path ++ ["A_20230301_1200_TIF"]%string);
               mkFoundFile "B" (mkDate 2023 1) (root_path ++ ["sub"; "B_20230101_1200_TIF"]%string)]
              [root_path ++ ["A_20230215_0900_TIF"]%string;
               root_path ++ ["sub"; "A_20230101_1200_TIF"]%string] [])
            ltac:(vm_compute; reflexivity)))
         [] (root_path ++ ["A_20230215_0900_TIF"]%string)
         [root_path ++ ["sub"; "A_20230101_1200_TIF"]%string]
         (io_error_of "Permission denied") eq_refl _ _).
  - intros q [].
  - vm_compute. reflexivity.
Defined.

(** ** Claims about the deduplication step *)

Lemma keep_insert_self_fresh : forall f keep,
  (forall g, In g keep -> path g <> path f) -> In f (keep_insert f keep).
Proof.
  intros f keep H. apply keep_contains_false in H.
  apply (Permutation_in _ (Permutation_sym (keep_insert_perm f keep H))). left; reflexivity.
Qed.

(** C1: two files of one group with different dates, processed one after
    the other from a state where the group has no kept file: whatever the
    order, the run ends in the same state, which keeps the later-dated file
    and removes the earlier-dated one. *)
Theorem later_date_wins_either_order :
  forall (basic_calendar_date : string -> result Date FormatError) pa pb k da db st,
  parse_path basic_calendar_date pa = PParsed k da ->
  parse_path basic_calendar_date pb = PParsed k db ->
  da <> db ->
  (forall g, In g (to_keep st) -> path g <> k) ->
  bind_outcome (scan_file basic_calendar_date pa st) (scan_file basic_calendar_date pb) =
  bind_outcome (scan_file basic_calendar_date pb st) (scan_file basic_calendar_date pa) /\
  exists st', bind_outcome (scan_file basic_calendar_date pa st)
                           (scan_file basic_calendar_date pb) = Returned st' /\
    (date_lt da db = true \/ date_lt db da = true) /\
    (date_lt da db = true -> In (mkFoundFile k db pb) (to_keep st') /\ In pa (to_remove st')) /\
    (date_lt db da = true -> In (mkFoundFile k da pa) (to_keep st') /\ In pb (to_remove st')).
Proof.
  intros P pa pb k da db st Hpa Hpb Hne Hfresh.
  set (fa := mkFoundFile k da pa). set (fb := mkFoundFile k db pb).
  assert (Ea : scan_file P pa st =
               Returned (mkScanState (keep_insert fa (to_keep st)) (to_remove st) (error_log st)))
    by (unfold scan_file; rewrite Hpa; apply dedup_new; exact Hfresh).
  assert (Eb : scan_file P pb st =
               Returned (mkScanState (keep_insert fb (to_keep st)) (to_remove st) (error_log st)))
    by (unfold scan_file; rewrite Hpb; apply dedup_new; exact Hfresh).
  rewrite Ea, Eb. simpl. unfold scan_file. rewrite Hpa, Hpb.
  rewrite (dedup_second fa fb) by (simpl; auto).
  rewrite (dedup_second fb fa) by (simpl; auto).
  simpl. destruct (date_neq_total da db Hne) as [H|H].
  - rewrite H, (date_lt_asym _ _ H). split; [reflexivity|].
    eexists. split; [reflexivity|]. split; [left; reflexivity|]. split.
    + intros _. split; [apply keep_insert_self_fresh; exact Hfresh|apply remove_insert_self].
    + intros Habs. discriminate Habs.
  - rewrite H, (date_lt_asym _ _ H). split; [reflexivity|].
    eexists. split; [reflexivity|]. split; [right; reflexivity|]. split.
    + intros Habs. discriminate Habs.
    + intros _. split; [apply keep_insert_self_fresh; exact Hfresh|apply remove_insert_self].
Qed.

Lemma later_date_wins_either_order_witness :
  bind_outcome (scan_file parse_basic_calendar_date (full_path tile_A_jan) empty_state)
               (scan_file parse_basic_calendar_date (full_path tile_A_feb)) =
  bind_outcome (scan_file parse_basic_calendar_date (full_path tile_A_feb) empty_state)
               (scan_file parse_basic_calendar_date (full_path tile_A_jan)).
Proof.
  refine (proj1 (later_date_wins_either_order parse_basic_calendar_date
            (full_path tile_A_jan) (full_path tile_A_feb) "A" (mkDate 2023 1) (mkDate 2023 46)
            empty_state _ _ _ _)).
  - vm_compute. reflexivity.
  - vm_compute. reflexivity.
  - discriminate.
  - intros g [].
Defined.

(** C7: with equal dates the file processed first stays kept and the
    second one's path is marked for removal; more generally a file whose
    date equals the kept file of its group never displaces it. *)
Theorem tie_keeps_first_seen : forall a b st,
  path a = path b -> date a = date b ->
  ((forall g, In g (to_keep st) -> path g <> path a) ->
     exists st', bind_outcome (dedup a st) (dedup b) = Returned st' /\
       In a (to_keep st') /\ In (full_path b) (to_remove st') /\
       to_keep st' = keep_insert a (to_keep st)) /\
  (keep_sorted (to_keep st) -> In a (to_keep st) ->
     exists st', dedup b st = Returned st' /\ In a (to_keep st') /\
       to_remove st' = remove_insert (full_path b) (to_remove st)).
Proof.
  intros a b st Hk Hd. split.
  - intros Hfresh. rewrite dedup_new by exact Hfresh. simpl.
    rewrite dedup_second by auto. rewrite Hd, date_lt_irrefl.
    eexists. split; [reflexivity|]. simpl. split; [|split; [apply remove_insert_self|reflexivity]].
    apply keep_insert_self_fresh. exact Hfresh.
  - intros Hks Ha. destruct (dedup_cases b st Hks) as [st1 [Hdd [_ [_ Hcase]]]].
    exists st1. split; [exact Hdd|].
    destruct Hcase as [[Hnew _]|[old [rest [Hperm0 [Hpath [_ [
        [Hlt _]|[_ [_ [Hperm Hr]]]]]]]]]].
    + exfalso. exact (Hnew a Ha Hk).
    + assert (Hold : In old (to_keep st)) by (apply (perm_In_iff _ _ _ Hperm0); left; auto).
      assert (old = a) as -> by (eapply keep_unique; eauto; congruence).
      rewrite Hd, date_lt_irrefl in Hlt. discriminate.
    + assert (Hold : In old (to_keep st)) by (apply (perm_In_iff _ _ _ Hperm0); left; auto).
      assert (old = a) as -> by (eapply keep_unique; eauto; congruence).
      split; [apply (perm_In_iff _ _ _ Hperm); left; reflexivity|exact Hr].
Qed.

Lemma tie_keeps_first_seen_witness :
  (exists st', bind_outcome (dedup tile_A_jan empty_state) (dedup tile_A_jan_copy) = Returned st' /\
     In tile_A_jan (to_keep st') /\ In (full_path tile_A_jan_copy) (to_remove st')) /\
  (exists st', dedup tile_A_jan_copy state_jan = Returned st' /\ In tile_A_jan (to_keep st')).
Proof.
  destruct (tie_keeps_first_seen tile_A_jan tile_A_jan_copy empty_state eq_refl eq_refl)
    as [H1 _].
  destruct (tie_keeps_first_seen tile_A_jan tile_A_jan_copy state_jan eq_refl eq_refl)
    as [_ H2].
  split.
  - destruct (H1 ltac:(intros g [])) as [st' [E [Ha [Hb _]]]]. exists st'. auto.
  - destruct (H2 ltac:(repeat constructor) ltac:(left; reflexivity)) as [st' [E [Ha _]]].
    exists st'. auto.
Defined.

(** C9: a step on a parsed file with a fresh path, when a file [old] of the
    same group is already kept, keeps the size of the kept set and adds
    exactly one path to the removed set: that of the file losing the date
    comparison ([old] when it is strictly older than the new file, the new
    file otherwise), while the winner is kept and the loser is not. When the
    file is the first of its group, the removed set is left alone and the
    kept set grows by one. *)
Theorem dedup_step_frame : forall f st,
  keep_sorted (to_keep st) ->
  (forall q, In q (map full_path (to_keep st)) -> ~ In q (to_remove st)) ->
  ~ In (full_path f) (map full_path (to_keep st)) -> ~ In (full_path f) (to_remove st) ->
  exists st', dedup f st = Returned st' /\
  (forall old, In old (to_keep st) -> path old = path f ->
     length (to_keep st') = length (to_keep st) /\
     exists winner loser,
       ((date_lt (date old) (date f) = true /\ winner = f /\ loser = old) \/
        (date_lt (date old) (date f) = false /\ winner = old /\ loser = f)) /\
       In winner (to_keep st') /\ ~ In loser (to_keep st') /\
       (forall q, In q (to_remove st') <-> q = full_path loser \/ In q (to_remove st)) /\
       length (to_remove st') = S (length (to_remove st))) /\
  ((forall g, In g (to_keep st) -> path g <> path f) ->
     to_remove st' = to_remove st /\ length (to_keep st') = S (length (to_keep st))).
Proof.
  intros f st Hks Hdis Hfk Hfr.
  destruct (dedup_cases f st Hks) as [st1 [Hd [_ [_ Hcase]]]].
  exists st1. split; [exact Hd|].
  destruct Hcase as [[Hnew [_ [Hperm Hr]]]|[old [rest [Hperm0 [Hpath [Hrest Hsub]]]]]].
  - split.
    + intros g Hg Hgk. exfalso. exact (Hnew g Hg Hgk).
    + intros _. split; [exact Hr|]. rewrite (Permutation_length Hperm). reflexivity.
  - assert (Hold : In old (to_keep st)) by (apply (perm_In_iff _ _ _ Hperm0); left; auto).
    assert (Hfo : f <> old).
    { intros ->. apply Hfk, in_map, Hold. }
    rewrite keep_contains_false in Hrest.
    split.
    + intros old' Hold' Hpath'.
      assert (Heq : old' = old) by (apply (keep_unique _ _ _ Hks Hold' Hold); congruence).
      subst old'.
      destruct Hsub as [[Hlt [_ [Hperm Hr]]]|[Hlt [_ [Hperm Hr]]]].
      * split; [rewrite (Permutation_length Hperm), (Permutation_length Hperm0); reflexivity|].
        assert (Hno : ~ In (full_path old) (to_remove st)) by (apply Hdis, in_map, Hold).
        exists f, old. split; [left; auto|].
        split; [apply (perm_In_iff _ _ _ Hperm); left; reflexivity|].
        split.
        { intros Hin. apply (perm_In_iff _ _ _ Hperm) in Hin.
          destruct Hin as [Hin|Hin]; [exact (Hfo Hin)|exact (Hrest old Hin Hpath)]. }
        rewrite Hr.
        split; [intros q; apply remove_insert_fresh_In, Hno|apply remove_insert_fresh, Hno].
      * split; [rewrite (Permutation_length Hperm), (Permutation_length Hperm0); reflexivity|].
        exists old, f. split; [right; auto|].
        split; [apply (perm_In_iff _ _ _ Hperm); left; reflexivity|].
        split.
        { intros Hin. apply (perm_In_iff _ _ _ Hperm) in Hin.
          destruct Hin as [Hin|Hin]; [exact (Hfo (eq_sym Hin))|exact (Hrest f Hin eq_refl)]. }
        rewrite Hr.
        split; [intros q; apply remove_insert_fresh_In, Hfr|apply remove_insert_fresh, Hfr].
    + intros Hnone. exfalso. exact (Hnone old Hold Hpath).
Qed.

Lemma dedup_step_frame_witness :
  exists st', dedup tile_A_feb state_jan = Returned st' /\
    length (to_keep st') = 1%nat /\ length (to_remove st') = 1%nat /\
    In tile_A_feb (to_keep st') /\ ~ In tile_A_jan (to_keep st') /\
    In (full_path tile_A_jan) (to_remove st').
Proof.
  destruct (dedup_step_frame tile_A_feb state_jan)
    as [st' [E [Hsome _]]].
  - repeat constructor.
  - intros q _ [].
  - vm_compute. intros [H|[]]. discriminate H.
  - intros [].
  - exists st'.
    destruct (Hsome tile_A_jan ltac:(left; reflexivity) eq_refl)
      as [Hk [winner [loser [Hwl [Hw [Hl [Hin Hr]]]]]]].
    destruct Hwl as [[_ [-> ->]]|[Hlt _]]; [|vm_compute in Hlt; discriminate Hlt].
    split; [exact E|]. split; [exact Hk|]. split; [exact Hr|].
    split; [exact Hw|]. split; [exact Hl|]. apply Hin. left; reflexivity.
Defined.

(** ** The filename parser *)

Lemma str_split_nonnil : forall c s, str_split c s <> [].
Proof.
  intros c [|a s]; simpl; [discriminate|].
  destruct (Ascii.eqb a c); [discriminate|]. destruct (str_split c s); discriminate.
Qed.

Lemma next_back_last : forall {A} (l : list A) d, l <> [] -> next_back_nth 0 l = Some (last l d).
Proof.
  intros A l d H. unfold next_back_nth. rewrite (app_removelast_last d H) at 1.
  rewrite rev_unit. reflexivity.
Qed.

Lemma str_split_length_cons : forall c a s,
  length (str_split c s) <= length (str_split c (String a s)).
Proof.
  intros c a s. simpl. destruct (Ascii.eqb a c); simpl; [lia|].
  destruct (str_split c s); simpl; lia.
Qed.

Lemma str_split_length_app : forall c u t,
  length (str_split c t) <= length (str_split c (u ++ t)).
Proof.
  intros c u t. induction u as [|a u IH]; simpl; [lia|].
  eapply Nat.le_trans; [exact IH|]. apply str_split_length_cons.
Qed.

Lemma last_cons_cons : forall {A} (x : A) l d, l <> [] -> last (x :: l) d = last l d.
Proof. intros A x [|y l] d H; [congruence|reflexivity]. Qed.

(** The last token of a split is a suffix of the string. *)
Lemma str_split_last_suffix : forall c s,
  exists u, s = (u ++ last (str_split c s) ""%string)%string /\
            (length (str_split c s) = 1%nat -> u = ""%string).
Proof.
  intros c. induction s as [|a s IH].
  - exists ""%string. simpl. auto.
  - destruct IH as [u [Hu Hlen]]. simpl.
    pose proof (str_split_nonnil c s) as Hnn.
    destruct (Ascii.eqb a c).
    + exists (String a u). rewrite last_cons_cons by exact Hnn. simpl. split; [congruence|].
      intros H. destruct (str_split c s); [congruence|discriminate].
    + destruct (str_split c s) as [|t ts] eqn:E; [congruence|].
      destruct ts as [|t' ts].
      * exists ""%string. simpl in *. rewrite (Hlen eq_refl) in Hu. simpl in Hu.
        subst. auto.
      * exists (String a u). simpl in *. split; [congruence|discriminate].
Qed.

(** The filename has no more underscore-delimited fields than the path. *)
Lemma filename_fields_le_path_fields : forall s,
  length (str_split "_" (last (str_split "/" s) ""%string)) <= length (str_split "_" s).
Proof.
  intros s. destruct (str_split_last_suffix "/" s) as [u [Hu _]].
  rewrite Hu at 2. apply str_split_length_app.
Qed.

Lemma parse_path_fields_aux : forall basic_calendar_date p,
  let path_str := path_display p in
  let base := str_split "_" (last (str_split "/" path_str) ""%string) in
  let paths := str_split "_" path_str in
  3 <= length base ->
  3 <= length paths /\
  parse_path basic_calendar_date p =
    match basic_calendar_date (nth (length paths - 3) paths ""%string) with
    | Ok d => PParsed (join "_" (firstn (length base - 3) base)) d
    | Err e => PBadDate e
    end.
Proof.
  intros P p path_str base paths Hb.
  assert (Hp : 3 <= length paths).
  { eapply Nat.le_trans; [exact Hb|]. apply filename_fields_le_path_fields. }
  split; [exact Hp|]. unfold parse_path. fold path_str.
  rewrite (next_back_last _ ""%string (str_split_nonnil "/" path_str)). fold base.
  destruct (Nat.ltb_spec (length base) 3) as [H|H]; [lia|]. fold paths.
  unfold next_back_nth.
  rewrite (nth_error_nth' (rev paths) ""%string) by (rewrite length_rev; lia).
  rewrite rev_nth by lia. replace (length paths - 3) with (length paths - 3) by lia.
  reflexivity.
Qed.

(** The [let Some(date) = ... else] branch is never taken: a filename with
    fewer than three fields panics before it, and one with three or more
    fields gives the path at least three fields. *)
Lemma parse_path_never_skips : forall basic_calendar_date p,
  parse_path basic_calendar_date p <> PSkip.
Proof.
  intros P p. destruct (le_lt_dec 3 (length (str_split "_" (last (str_split "/" (path_display p)) ""%string))))
    as [H|H].
  - destruct (parse_path_fields_aux P p H) as [_ ->].
    destruct (P _); discriminate.
  - unfold parse_path. rewrite (next_back_last _ ""%string (str_split_nonnil "/" _)).
    destruct (Nat.ltb_spec (length (str_split "_" (last (str_split "/" (path_display p)) ""%string))) 3);
      [discriminate|lia].
Qed.

Lemma short_filename_panics : forall basic_calendar_date p st,
  length (str_split "_" (last (str_split "/" (path_display p)) ""%string)) < 3 ->
  scan_file basic_calendar_date p st = Panicked.
Proof.
  intros P p st H. unfold scan_file, parse_path.
  rewrite (next_back_last _ ""%string (str_split_nonnil "/" _)).
  destruct (Nat.ltb_spec (length (str_split "_" (last (str_split "/" (path_display p)) ""%string))) 3);
    [reflexivity|lia].
Qed.

(** C10: splitting any string on '/' gives at least one token, so the
    [unwrap] of [split('/').next_back()] never panics. *)
Theorem last_segment_exists : forall s,
  str_split "/" s <> [] /\ exists seg, next_back_nth 0 (str_split "/" s) = Some seg.
Proof.
  intros s. split; [apply str_split_nonnil|].
  exists (last (str_split "/" s) ""%string). apply next_back_last, str_split_nonnil.
Qed.

(** C6: for a path whose filename has at least three underscore-delimited
    fields, the group key is the filename's fields but the last three joined
    with '_', and the date is parsed from the third-from-last
    underscore-delimited token of the whole path string. *)
Theorem parse_path_fields : forall basic_calendar_date p,
  let path_str := path_display p in
  let base := str_split "_" (last (str_split "/" path_str) ""%string) in
  let paths := str_split "_" path_str in
  3 <= length base ->
  3 <= length paths /\
  parse_path basic_calendar_date p =
    match basic_calendar_date (nth (length paths - 3) paths ""%string) with
    | Ok d => PParsed (join "_" (firstn (length base - 3) base)) d
    | Err e => PBadDate e
    end.
Proof. intros P p. exact (parse_path_fields_aux P p). Qed.

Lemma parse_path_fields_witness :
  parse_path parse_basic_calendar_date (root_path ++ ["sub_dir"; "A_B_20230215_0900_TIF"]%string) =
  PParsed "A_B" (mkDate 2023 46).
Proof.
  refine (proj2 (parse_path_fields parse_basic_calendar_date
                   (root_path ++ ["sub_dir"; "A_B_20230215_0900_TIF"]%string) _)).
  vm_compute. lia.
Defined.

(** C5: when the walk reaches a file whose filename has at least three
    fields and whose date token is not a calendar date, the run ends with
    that [FormatError]: no path is deleted and no later entry is scanned. *)
Theorem bad_date_aborts_run :
  forall (basic_calendar_date : string -> result Date FormatError) remove_file dirs pre p post st e,
  walk_items_list dirs = pre ++ WFile p :: post ->
  scan_items basic_calendar_date pre empty_state = Returned st ->
  3 <= length (str_split "_" (last (str_split "/" (path_display p)) ""%string)) ->
  basic_calendar_date (nth (length (str_split "_" (path_display p)) - 3)
                           (str_split "_" (path_display p)) ""%string) = Err e ->
  main basic_calendar_date remove_file dirs = ([], Failed (FormatError_ e)) /\
  scan_entries basic_calendar_date dirs empty_state =
  scan_items basic_calendar_date (pre ++ [WFile p]) empty_state.
Proof.
  intros P rm dirs pre p post st e Hw Hpre Hb He.
  destruct (parse_path_fields_aux P p Hb) as [_ Hp]. rewrite He in Hp.
  assert (Hf : scan_file P p st = Failed (FormatError_ e)) by (unfold scan_file; rewrite Hp; reflexivity).
  assert (Hs : scan_entries P dirs empty_state = Failed (FormatError_ e)).
  { rewrite scan_entries_items, Hw, scan_items_app, Hpre. simpl. rewrite Hf. reflexivity. }
  split.
  - unfold main. rewrite Hs. reflexivity.
  - rewrite Hs, scan_items_app, Hpre. simpl. rewrite Hf. reflexivity.
Qed.

Lemma bad_date_aborts_run_witness :
  main parse_basic_calendar_date all_removable scenario_bad_date =
  ([], Failed (FormatError_ (format_error_of "invalid calendar date"))).
Proof.
  refine (proj1 (bad_date_aborts_run parse_basic_calendar_date all_removable scenario_bad_date
            [WFile (root_path ++ ["A_20230101_1200_TIF"]%string)]
            (root_path ++ ["A_20239999_1200_TIF"]%string)
            [WFile (root_path ++ ["A_20220101_1200_TIF"]%string)]
            (mkScanState [tile_A_jan] [] []) (format_error_of "invalid calendar date")
            eq_refl _ _ _)).
  - vm_compute. reflexivity.
  - vm_compute. lia.
  - vm_compute. reflexivity.
Defined.

(** C4 (defect): a filename with two fields makes [base_path.len()-3]
    underflow, so the run panics before the [error!]-and-skip branch and
    deletes nothing, although tile [B] has an older version to delete. *)
Theorem short_filename_aborts_run :
  main parse_basic_calendar_date all_removable scenario_short_name = ([], Panicked) /\
  main parse_basic_calendar_date all_removable (tl scenario_short_name) =
  ([root_path ++ ["B_20220101_1200_TIF"]%string], Returned (1%nat, 1%nat)).
Proof. split; vm_compute; reflexivity. Qed.

(** * Further properties of the program *)

(** ** Strings and paths *)

Lemma string_append_cancel_l : forall p a b : string, (p ++ a)%string = (p ++ b)%string -> a = b.
Proof.
  induction p as [|c p IH]; simpl; intros a b H; [exact H|].
  injection H. exact (IH a b).
Qed.

Lemma string_append_assoc : forall s t u : string, ((s ++ t) ++ u)%string = (s ++ (t ++ u))%string.
Proof. induction s as [|a s IH]; intros t u; simpl; [reflexivity|]. rewrite IH. reflexivity. Qed.

Lemma string_append_nil_r : forall s : string, (s ++ "")%string = s.
Proof. induction s as [|a s IH]; simpl; [reflexivity|]. rewrite IH. reflexivity. Qed.

Lemma concat_empty_cons : forall x xs,
  String.concat "" (x :: xs) = (x ++ String.concat "" xs)%string.
Proof. intros x [|y ys]; [simpl; symmetry; apply string_append_nil_r|reflexivity]. Qed.

Lemma concat_empty_app : forall l1 l2,
  String.concat "" (l1 ++ l2) = (String.concat "" l1 ++ String.concat "" l2)%string.
Proof.
  induction l1 as [|x l1 IH]; intros l2; [reflexivity|].
  rewrite <- app_comm_cons, !concat_empty_cons, IH, string_append_assoc. reflexivity.
Qed.

Lemma path_display_snoc : forall dir name,
  path_display (dir ++ [name]) = (path_display dir ++ String "/" name)%string.
Proof.
  intros dir name. unfold path_display. rewrite map_app, concat_empty_app. reflexivity.
Qed.

Lemma has_char_split : forall c s, has_char c s = false -> str_split c s = [s].
Proof.
  intros c. induction s as [|a s IH]; simpl; intros H; [reflexivity|].
  apply orb_false_iff in H. destruct H as [H1 H2]. rewrite H1, (IH H2). reflexivity.
Qed.

Lemma has_char_app : forall c s t, has_char c (s ++ t) = has_char c s || has_char c t.
Proof.
  intros c. induction s as [|a s IH]; intros t; simpl; [reflexivity|].
  rewrite IH, orb_assoc. reflexivity.
Qed.

Lemma path_display_no_underscore : forall dir,
  (forall comp, In comp dir -> has_char "_" comp = false) ->
  has_char "_" (path_display dir) = false.
Proof.
  induction dir as [|x dir IH]; intros H; [reflexivity|].
  unfold path_display in *. simpl map. rewrite concat_empty_cons, has_char_app. simpl.
  rewrite (H x (or_introl eq_refl)), IH; [reflexivity|]. intros comp Hc. apply H. right. exact Hc.
Qed.

(** Splitting a concatenation: the last token of the left part and the
    first token of the right part join. *)
Lemma str_split_app : forall c u v,
  str_split c (u ++ v) =
  removelast (str_split c u) ++
    (last (str_split c u) "" ++ hd "" (str_split c v))%string :: tl (str_split c v).
Proof.
  intros c u v. induction u as [|a u IH].
  - simpl. destruct (str_split c v) as [|h t] eqn:E; [exfalso; exact (str_split_nonnil c v E)|].
    reflexivity.
  - cbn [append str_split]. rewrite IH.
    pose proof (str_split_nonnil c u) as Hnn.
    destruct (Ascii.eqb a c).
    + destruct (str_split c u) as [|s0 ss]; [congruence|]. reflexivity.
    + destruct (str_split c u) as [|s0 ss]; [congruence|].
      destruct ss as [|s1 ss]; reflexivity.
Qed.

Lemma next_back_nth_mid : forall {A} n (pre : list A) x l,
  n < length l -> next_back_nth n (pre ++ x :: l) = next_back_nth n l.
Proof.
  intros A n pre x l H. unfold next_back_nth. rewrite rev_app_distr. simpl.
  rewrite <- app_assoc. apply nth_error_app1. rewrite length_rev. exact H.
Qed.

Lemma last_segment_snoc : forall dir name, has_char "/" name = false ->
  next_back_nth 0 (str_split "/" (path_display (dir ++ [name]))) = Some name.
Proof.
  intros dir name H. rewrite path_display_snoc, str_split_app.
  assert (E : str_split "/" (String "/" name) = [""%string; name]).
  { simpl. rewrite (has_char_split _ _ H). reflexivity. }
  rewrite E. cbn [hd tl].
  rewrite (next_back_nth_mid 0 _ _ [name]) by (simpl; lia). reflexivity.
Qed.

Lemma date_token_snoc : forall dir name,
  4 <= length (str_split "_" name) ->
  next_back_nth 2 (str_split "_" (path_display (dir ++ [name]))) =
  next_back_nth 2 (str_split "_" name).
Proof.
  intros dir name H. rewrite path_display_snoc, str_split_app.
  destruct (str_split "_" name) as [|n1 ns] eqn:E; [simpl in H; lia|].
  assert (E2 : str_split "_" (String "/" name) = String "/" n1 :: ns)
    by (simpl; rewrite E; reflexivity).
  rewrite E2. cbn [hd tl]. simpl in H.
  rewrite (next_back_nth_mid 2 _ _ ns) by lia.
  symmetry. exact (next_back_nth_mid 2 [] n1 ns ltac:(lia)).
Qed.

(** For a filename of four or more fields, the parse reads the filename
    only. *)
Lemma parse_path_snoc : forall basic_calendar_date dir name,
  has_char "/" name = false -> 4 <= length (str_split "_" name) ->
  parse_path basic_calendar_date (dir ++ [name]) =
  match next_back_nth 2 (str_split "_" name) with
  | None => PSkip
  | Some date =>
      match basic_calendar_date date with
      | Err e => PBadDate e
      | Ok d => PParsed (join "_" (firstn (length (str_split "_" name) - 3)
                                          (str_split "_" name))) d
      end
  end.
Proof.
  intros P dir name Hs H4. unfold parse_path. cbv zeta.
  rewrite (last_segment_snoc dir name Hs), (date_token_snoc dir name H4).
  destruct (Nat.ltb_spec (length (str_split "_" name)) 3) as [H|H]; [lia|]. reflexivity.
Qed.

(** ** The scanner step and the walk *)

Lemma scan_file_parsed : forall basic_calendar_date p st st',
  scan_file basic_calendar_date p st = Returned st' ->
  exists k d, parse_path basic_calendar_date p = PParsed k d /\
              dedup (mkFoundFile k d p) st = Returned st'.
Proof.
  intros P p st st' H. unfold scan_file in H.
  destruct (parse_path P p) as [| |e|k d] eqn:E; try discriminate.
  - exfalso. exact (parse_path_never_skips P p E).
  - exists k, d. split; [reflexivity|exact H].
Qed.

Lemma dedup_log : forall f st st', dedup f st = Returned st' -> error_log st' = error_log st.
Proof.
  intros f st st' H. unfold dedup in H.
  destruct (keep_contains f (to_keep st));
    [destruct (keep_take f (to_keep st)) as [[old|] rest];
       [destruct (date_lt (date old) (date f))|]|];
    try discriminate; injection H as <-; reflexivity.
Qed.

Lemma scan_items_parsed : forall basic_calendar_date l st st',
  scan_items basic_calendar_date l st = Returned st' ->
  error_log st' = error_log st /\
  forall p, In p (item_files l) -> exists k d, parse_path basic_calendar_date p = PParsed k d.
Proof.
  intros P. induction l as [|[p|e] l IH]; intros st st' H; simpl in H.
  - injection H as <-. split; [reflexivity|]. intros p [].
  - destruct (scan_file P p st) as [st1|e|] eqn:Hs; simpl in H; try discriminate.
    destruct (IH _ _ H) as [Hlog Hall].
    destruct (scan_file_parsed P p st st1 Hs) as [k [d [Hp Hd]]].
    split; [rewrite Hlog; exact (dedup_log _ _ _ Hd)|].
    intros q [<-|Hq]; [eauto|exact (Hall q Hq)].
  - discriminate.
Qed.

Lemma remove_all_returned : forall rm l tried u,
  remove_all rm l = (tried, Returned u) -> tried = l.
Proof.
  intros rm l. induction l as [|f l IH]; intros tried u H; simpl in H.
  - injection H; intros; subst; reflexivity.
  - destruct (rm f) as [t|e]; simpl in H; [|discriminate].
    destruct (remove_all rm l) as [tr r] eqn:E; simpl in H.
    injection H as <- ->. rewrite (IH _ _ eq_refl). reflexivity.
Qed.

Lemma remove_all_tried_incl : forall rm l tried r,
  remove_all rm l = (tried, r) -> incl tried l.
Proof.
  intros rm l. induction l as [|f l IH]; intros tried r H; simpl in H.
  - injection H as <- _. intros q [].
  - destruct (rm f) as [t|e]; simpl in H.
    + destruct (remove_all rm l) as [tr r'] eqn:E; simpl in H. injection H as <- _.
      intros q [<-|Hq]; [left; reflexivity|right; exact (IH _ _ eq_refl q Hq)].
    + injection H as <- _. intros q [<-|[]]. left; reflexivity.
Qed.

Lemma main_returned_inv : forall basic_calendar_date rm dirs tried nk nr,
  main basic_calendar_date rm dirs = (tried, Returned (nk, nr)) ->
  exists st, scan_entries basic_calendar_date dirs empty_state = Returned st /\
    tried = to_remove st /\ nk = length (to_keep st) /\ nr = length (to_remove st).
Proof.
  intros P rm dirs tried nk nr H. unfold main in H.
  destruct (scan_entries P dirs empty_state) as [st|e|] eqn:Hs; try discriminate.
  destruct (remove_all rm (to_remove st)) as [tr r] eqn:E.
  destruct r as [u|e|]; simpl in H; try discriminate.
  injection H as <- <- <-. exists st. split; [reflexivity|]. split; [|auto].
  exact (remove_all_returned _ _ _ _ E).
Qed.

Lemma main_tried : forall basic_calendar_date rm dirs tried o,
  main basic_calendar_date rm dirs = (tried, o) -> tried <> [] ->
  exists st, scan_entries basic_calendar_date dirs empty_state = Returned st /\
    incl tried (to_remove st).
Proof.
  intros P rm dirs tried o H Hne. unfold main in H.
  destruct (scan_entries P dirs empty_state) as [st|e|] eqn:Hs;
    [|injection H as <- _; congruence..].
  destruct (remove_all rm (to_remove st)) as [tr r] eqn:E. simpl in H. injection H as <- _.
  exists st. split; [reflexivity|]. exact (remove_all_tried_incl _ _ _ _ E).
Qed.

Lemma remove_sorted_NoDup : forall s, remove_sorted s -> NoDup s.
Proof.
  intros s H. pose proof (sorted_NoDup_keys (fun q => q) path_cmp path_cmp_antisym s H) as Hnd.
  rewrite map_id in Hnd. exact Hnd.
Qed.

Lemma keep_sorted_NoDup_keys : forall s, keep_sorted s -> NoDup (map path s).
Proof.
  intros s H. unfold keep_sorted, found_cmp in H.
  exact (sorted_NoDup_keys path String.compare String.compare_antisym _ H).
Qed.

Lemma NoDup_map_Some : forall {T} (l : list T), NoDup l -> NoDup (map Some l).
Proof.
  intros T l H. induction H as [|x l Hx H IH]; simpl; constructor; [|exact IH].
  intros Hin. apply in_map_iff in Hin. destruct Hin as [y [Hy Hyl]].
  injection Hy as ->. contradiction.
Qed.

Lemma NoDup_map_inj_on : forall {T U} (f : T -> U) l x y,
  NoDup (map f l) -> In x l -> In y l -> f x = f y -> x = y.
Proof.
  intros T U f l. induction l as [|z l IH]; intros x y Hnd Hx Hy Hf; [destruct Hx|].
  simpl in Hnd. apply NoDup_cons_iff in Hnd. destruct Hnd as [Hz Hnd].
  destruct Hx as [<-|Hx]; destruct Hy as [<-|Hy]; auto.
  - exfalso. apply Hz. rewrite Hf. apply in_map. exact Hy.
  - exfalso. apply Hz. rewrite <- Hf. apply in_map. exact Hx.
Qed.

(** Files whose group keys are new and pairwise distinct each become a
    kept file; nothing is marked for removal. *)
Lemma scan_fresh_keys : forall basic_calendar_date l st,
  keep_sorted (to_keep st) ->
  (forall p, In p l -> parsed_key basic_calendar_date p <> None) ->
  NoDup (map (parsed_key basic_calendar_date) l ++ map Some (map path (to_keep st))) ->
  exists st', scan_items basic_calendar_date (map WFile l) st = Returned st' /\
    to_remove st' = to_remove st /\ length (to_keep st') = (length l + length (to_keep st))%nat.
Proof.
  intros P. induction l as [|p l IH]; intros st Hks Hsome Hnd.
  - exists st. split; [reflexivity|]. split; reflexivity.
  - destruct (parse_path P p) as [| |e|k d] eqn:Hp;
      try (exfalso; apply (Hsome p (or_introl eq_refl)); unfold parsed_key; rewrite Hp; reflexivity).
    assert (Hpk : parsed_key P p = Some k) by (unfold parsed_key; rewrite Hp; reflexivity).
    simpl map in Hnd. rewrite Hpk in Hnd. simpl app in Hnd.
    pose proof Hnd as Hnd0. apply NoDup_cons_iff in Hnd. destruct Hnd as [Hnin Hnd].
    assert (Hfresh : forall g, In g (to_keep st) -> path g <> path (mkFoundFile k d p)).
    { intros g Hg Heq. apply Hnin. apply in_or_app. right. simpl in Heq. rewrite <- Heq.
      apply in_map. apply in_map. exact Hg. }
    set (f := mkFoundFile k d p) in *.
    set (st1 := mkScanState (keep_insert f (to_keep st)) (to_remove st) (error_log st)).
    assert (Hstep : scan_file P p st = Returned st1).
    { unfold scan_file. rewrite Hp. apply dedup_new. exact Hfresh. }
    assert (Hperm : Permutation (to_keep st1) (f :: to_keep st)).
    { apply keep_insert_perm. apply keep_contains_false. exact Hfresh. }
    destruct (IH st1) as [st' [Hscan [Hr Hlen]]].
    + apply keep_insert_sorted. exact Hks.
    + intros q Hq. apply Hsome. right. exact Hq.
    + apply (Permutation_NoDup (l := Some k :: map (parsed_key P) l ++ map Some (map path (to_keep st))));
        [|exact Hnd0].
      eapply perm_trans; [apply Permutation_middle|]. apply Permutation_app_head.
      apply Permutation_sym. exact (Permutation_map Some (Permutation_map path Hperm)).
    + exists st'. split.
      * simpl. rewrite Hstep. exact Hscan.
      * split; [exact Hr|]. rewrite Hlen, (Permutation_length Hperm). simpl. lia.
Qed.

Lemma scan_file_grows : forall basic_calendar_date p st st',
  keep_sorted (to_keep st) -> remove_sorted (to_remove st) ->
  scan_file basic_calendar_date p st = Returned st' ->
  keep_sorted (to_keep st') /\ remove_sorted (to_remove st') /\
  incl (to_remove st) (to_remove st') /\ incl (map path (to_keep st)) (map path (to_keep st')).
Proof.
  intros P p st st' Hks Hrs H.
  destruct (scan_file_parsed P p st st' H) as [k [d [_ Hd]]].
  destruct (dedup_cases (mkFoundFile k d p) st Hks) as [st1 [Hd1 [_ [Hks' Hcase]]]].
  rewrite Hd in Hd1. injection Hd1 as <-.
  destruct Hcase as [[_ [_ [Hperm Hr]]]|[old [rest [Hperm0 [Hpath [_ [
      [_ [_ [Hperm Hr]]]|[_ [_ [Hperm Hr]]]]]]]]]].
  - split; [exact Hks'|]. rewrite Hr. split; [exact Hrs|]. split; [intros q Hq; exact Hq|].
    intros k' Hk'. apply in_map_iff in Hk'. destruct Hk' as [g [<- Hg]]. apply in_map.
    apply (Permutation_in _ (Permutation_sym Hperm)). right. exact Hg.
  - split; [exact Hks'|]. rewrite Hr. split; [apply remove_insert_sorted; exact Hrs|].
    split; [intros q Hq; apply (remove_insert_In _ _ _ Hrs); right; exact Hq|].
    intros k' Hk'. apply in_map_iff in Hk'. destruct Hk' as [g [<- Hg]].
    apply (Permutation_in _ Hperm0) in Hg. destruct Hg as [<-|Hg].
    + rewrite Hpath. apply in_map. apply (Permutation_in _ (Permutation_sym Hperm)).
      left. reflexivity.
    + apply in_map. apply (Permutation_in _ (Permutation_sym Hperm)). right. exact Hg.
  - split; [exact Hks'|]. rewrite Hr. split; [apply remove_insert_sorted; exact Hrs|].
    split; [intros q Hq; apply (remove_insert_In _ _ _ Hrs); right; exact Hq|].
    intros k' Hk'. apply in_map_iff in Hk'. destruct Hk' as [g [<- Hg]]. apply in_map.
    apply (Permutation_in _ (Permutation_sym Hperm)). apply (Permutation_in _ Hperm0). exact Hg.
Qed.

Lemma scan_items_grows : forall basic_calendar_date l st st',
  keep_sorted (to_keep st) -> remove_sorted (to_remove st) ->
  scan_items basic_calendar_date l st = Returned st' ->
  incl (to_remove st) (to_remove st') /\ incl (map path (to_keep st)) (map path (to_keep st')).
Proof.
  intros P. induction l as [|[p|e] l IH]; intros st st' Hks Hrs H; simpl in H.
  - injection H as <-. split; intros q Hq; exact Hq.
  - destruct (scan_file P p st) as [st1|e|] eqn:Hs; simpl in H; try discriminate.
    destruct (scan_file_grows P p st st1 Hks Hrs Hs) as [Hks1 [Hrs1 [Hr1 Hk1]]].
    destruct (IH st1 st' Hks1 Hrs1 H) as [Hr2 Hk2].
    split; eapply incl_tran; eauto.
  - discriminate.
Qed.

(** ** Properties of the scanner *)

(** X1: the [to_keep.take(&found_file).unwrap()] of the deduplication step
    never panics, whatever the kept set: [contains] and [take] find the same
    element.  The step always returns, leaving the error log alone. *)
Theorem dedup_never_panics : forall f st,
  exists st', dedup f st = Returned st' /\ error_log st' = error_log st.
Proof.
  intros f st. unfold dedup.
  destruct (keep_contains f (to_keep st)) eqn:Hc; [|eexists; split; reflexivity].
  destruct (keep_take f (to_keep st)) as [r rest] eqn:Ht.
  unfold keep_take, found_cmp in Ht. apply set_take_spec in Ht; try order_facts.
  destruct Ht as [[-> [_ Hc']]|[old [pre [post [-> _]]]]].
  - unfold keep_contains, found_cmp in Hc. congruence.
  - destruct (date_lt (date old) (date f)); eexists; split; reflexivity.
Qed.

(** X2: a walk that succeeds skipped no file: every file it visited parsed
    to a group key and a date, and the [error!] of the skip branch was never
    logged. *)
Theorem walk_skips_no_file : forall (basic_calendar_date : string -> result Date FormatError) dirs st,
  scan_entries basic_calendar_date dirs empty_state = Returned st ->
  error_log st = [] /\
  forall p, In p (item_files (walk_items_list dirs)) ->
    exists k d, parse_path basic_calendar_date p = PParsed k d.
Proof.
  intros P dirs st H. rewrite scan_entries_items in H. exact (scan_items_parsed P _ _ _ H).
Qed.

Lemma walk_skips_no_file_witness :
  error_log scenario3_state = [] /\
  exists k d, parse_path parse_basic_calendar_date (root_path ++ ["sub"; "B_20230101_1200_TIF"]%string)
              = PParsed k d.
Proof.
  destruct (walk_skips_no_file parse_basic_calendar_date scenario3 scenario3_state
              ltac:(vm_compute; reflexivity)) as [H1 H2].
  split; [exact H1|]. apply H2. vm_compute. auto 10.
Defined.

(** X3: an I/O error met anywhere in the tree ([file_type], [read_dir] or
    reading a directory entry) after the files before it were scanned ends
    the walk and the run with that [IOError]; nothing is deleted. *)
Theorem io_error_aborts_run :
  forall (basic_calendar_date : string -> result Date FormatError) remove_file dirs pre e post st,
  walk_items_list dirs = pre ++ WIoError e :: post ->
  scan_items basic_calendar_date pre empty_state = Returned st ->
  scan_entries basic_calendar_date dirs empty_state = Failed (IOError e) /\
  main basic_calendar_date remove_file dirs = ([], Failed (IOError e)).
Proof.
  intros P rm dirs pre e post st Hw Hpre.
  assert (Hs : scan_entries P dirs empty_state = Failed (IOError e))
    by (rewrite scan_entries_items, Hw, scan_items_app, Hpre; reflexivity).
  split; [exact Hs|]. unfold main. rewrite Hs. reflexivity.
Qed.

Lemma io_error_aborts_run_witness :
  main parse_basic_calendar_date all_removable scenario_io_error =
  ([], Failed (IOError (io_error_of "Permission denied"))).
Proof.
  refine (proj2 (io_error_aborts_run parse_basic_calendar_date all_removable scenario_io_error
            [WFile (root_path ++ ["A_20230101_1200_TIF"]%string);
             WFile (root_path ++ ["sub"; "B_20230101_1200_TIF"]%string)]
            (io_error_of "Permission denied")
            [WFile (root_path ++ ["A_20220101_1200_TIF"]%string)]
            (mkScanState
               [tile_A_jan;
                mkFoundFile "B" (mkDate 2023 1) (root_path ++ ["sub"; "B_20230101_1200_TIF"]%string)]
               [] [])
            _ _)).
  - vm_compute. reflexivity.
  - vm_compute. reflexivity.
Defined.

(** X4: once the walk reaches a file whose name has fewer than three
    underscore-delimited fields, wherever it sits in the tree, the run
    panics and deletes nothing. *)
Theorem short_filename_anywhere_panics :
  forall (basic_calendar_date : string -> result Date FormatError) remove_file dirs pre p post st,
  walk_items_list dirs = pre ++ WFile p :: post ->
  scan_items basic_calendar_date pre empty_state = Returned st ->
  length (str_split "_" (last (str_split "/" (path_display p)) ""%string)) < 3 ->
  scan_entries basic_calendar_date dirs empty_state = Panicked /\
  main basic_calendar_date remove_file dirs = ([], Panicked).
Proof.
  intros P rm dirs pre p post st Hw Hpre Hlen.
  assert (Hs : scan_entries P dirs empty_state = Panicked).
  { rewrite scan_entries_items, Hw, scan_items_app, Hpre. simpl.
    rewrite (short_filename_panics P p st Hlen). reflexivity. }
  split; [exact Hs|]. unfold main. rewrite Hs. reflexivity.
Qed.

Lemma short_filename_anywhere_panics_witness :
  main parse_basic_calendar_date all_removable scenario_short_nested = ([], Panicked).
Proof.
  refine (proj2 (short_filename_anywhere_panics parse_basic_calendar_date all_removable
            scenario_short_nested [WFile (root_path ++ ["A_20230101_1200_TIF"]%string)]
            (root_path ++ ["sub"; "B_TIF"]%string)
            [WFile (root_path ++ ["A_20220101_1200_TIF"]%string)] state_jan _ _ _)).
  - vm_compute. reflexivity.
  - vm_compute. reflexivity.
  - vm_compute. lia.
Defined.

(** ** Properties of the whole run *)

(** X5: when the run completes and the files of the tree have distinct
    paths, the two counts it logs ([to_keep.len()], [to_remove.len()]) add
    up to the number of files in the tree. *)
Theorem run_counts_cover_files :
  forall (basic_calendar_date : string -> result Date FormatError) remove_file dirs tried nk nr,
  NoDup (item_files (walk_items_list dirs)) ->
  main basic_calendar_date remove_file dirs = (tried, Returned (nk, nr)) ->
  (nk + nr)%nat = length (item_files (walk_items_list dirs)).
Proof.
  intros P rm dirs tried nk nr Hnd H.
  destruct (main_returned_inv _ _ _ _ _ _ H) as [st [Hs [_ [-> ->]]]].
  pose proof (scan_entries_inv P dirs st Hs) as [_ [Hrs [_ [_ [Hunion Hdis]]]]].
  destruct (Hdis Hnd) as [Hndk Hdj].
  assert (Hall : forall p, In p (item_files (walk_items_list dirs)) ->
                 exists k d, parse_path P p = PParsed k d).
  { rewrite scan_entries_items in Hs. exact (proj2 (scan_items_parsed P _ _ _ Hs)). }
  assert (Hperm : Permutation (map full_path (to_keep st) ++ to_remove st)
                              (item_files (walk_items_list dirs))).
  { apply NoDup_Permutation.
    - apply NoDup_app; [exact Hndk|apply remove_sorted_NoDup; exact Hrs|exact Hdj].
    - exact Hnd.
    - intros q. rewrite in_app_iff, Hunion. split; [tauto|].
      intros Hq. split; [exact Hq|apply Hall, Hq]. }
  rewrite <- (Permutation_length Hperm), length_app, length_map. reflexivity.
Qed.

Lemma run_counts_cover_files_witness :
  (2 + 2)%nat = length (item_files (walk_items_list scenario3)).
Proof.
  apply (run_counts_cover_files parse_basic_calendar_date all_removable scenario3
           (to_remove scenario3_state) 2 2).
  - vm_compute. repeat constructor; simpl; intuition discriminate.
  - vm_compute. reflexivity.
Defined.

(** X6: when the run completes, the number of kept files it logs is the
    number of distinct group keys among the files of the tree. *)
Theorem kept_count_is_group_count :
  forall (basic_calendar_date : string -> result Date FormatError) remove_file dirs tried nk nr,
  main basic_calendar_date remove_file dirs = (tried, Returned (nk, nr)) ->
  exists keys, NoDup keys /\ length keys = nk /\
    forall k, In k keys <-> exists p d, In p (item_files (walk_items_list dirs)) /\
                                      parse_path basic_calendar_date p = PParsed k d.
Proof.
  intros P rm dirs tried nk nr H.
  destruct (main_returned_inv _ _ _ _ _ _ H) as [st [Hs [_ [-> _]]]].
  pose proof (scan_entries_inv P dirs st Hs) as [Hks [_ [Hkept [Hrem [Hunion _]]]]].
  exists (map path (to_keep st)). split; [exact (keep_sorted_NoDup_keys _ Hks)|].
  split; [apply length_map|].
  intros k. split.
  - intros Hk. apply in_map_iff in Hk. destruct Hk as [g [<- Hg]].
    exists (full_path g), (date g). split; [|exact (Hkept g Hg)].
    exact (proj1 (proj1 (Hunion (full_path g)) (or_introl (in_map full_path _ g Hg)))).
  - intros [p [d [Hp Hpd]]].
    destruct (proj2 (Hunion p) (conj Hp (ex_intro _ k (ex_intro _ d Hpd)))) as [Hq|Hq].
    + apply In_paths in Hq. destruct Hq as [g [<- Hg]]. rewrite (Hkept g Hg) in Hpd.
      injection Hpd as <- _. apply in_map. exact Hg.
    + destruct (Hrem p Hq) as [k' [d' [Hk' [g [Hg [Hgk _]]]]]]. rewrite Hpd in Hk'.
      injection Hk' as <- _. rewrite <- Hgk. apply in_map. exact Hg.
Qed.

Lemma kept_count_is_group_count_witness :
  exists keys, NoDup keys /\ length keys = 2%nat /\
    forall k, In k keys <-> exists p d, In p (item_files (walk_items_list scenario3)) /\
                                      parse_path parse_basic_calendar_date p = PParsed k d.
Proof.
  apply (kept_count_is_group_count parse_basic_calendar_date all_removable scenario3
           (to_remove scenario3_state) 2 2).
  vm_compute. reflexivity.
Defined.

(** X7: over a tree of distinct paths, every path the run hands to
    [remove_file] is a file of the tree that has, in its group, a file of
    the tree dated no earlier which the run never hands to [remove_file]:
    no group loses all its files. *)
Theorem deletion_keeps_newer_copy :
  forall (basic_calendar_date : string -> result Date FormatError) remove_file dirs tried o,
  NoDup (item_files (walk_items_list dirs)) ->
  main basic_calendar_date remove_file dirs = (tried, o) ->
  forall q, In q tried ->
  exists k d keeper d',
    In q (item_files (walk_items_list dirs)) /\ parse_path basic_calendar_date q = PParsed k d /\
    In keeper (item_files (walk_items_list dirs)) /\ ~ In keeper tried /\
    parse_path basic_calendar_date keeper = PParsed k d' /\ date_le d d'.
Proof.
  intros P rm dirs tried o Hnd H q Hq.
  assert (Hne : tried <> []) by (intros ->; destruct Hq).
  destruct (main_tried _ _ _ _ _ H Hne) as [st [Hs Hincl]].
  pose proof (scan_entries_inv P dirs st Hs) as [_ [_ [Hkept [Hrem [Hunion Hdis]]]]].
  destruct (Hdis Hnd) as [_ Hdj].
  destruct (Hrem q (Hincl q Hq)) as [k [d [Hqk [g [Hg [Hgk Hgd]]]]]].
  exists k, d, (full_path g), (date g).
  split; [exact (proj1 (proj1 (Hunion q) (or_intror (Hincl q Hq))))|].
  split; [exact Hqk|].
  split; [exact (proj1 (proj1 (Hunion (full_path g)) (or_introl (in_map full_path _ g Hg))))|].
  split; [intros Ht; exact (Hdj (full_path g) (in_map full_path _ g Hg) (Hincl _ Ht))|].
  split; [rewrite (Hkept g Hg), Hgk; reflexivity|exact Hgd].
Qed.

Lemma deletion_keeps_newer_copy_witness :
  exists k d keeper d',
    In (root_path ++ ["A_20230215_0900_TIF"]%string) (item_files (walk_items_list scenario3)) /\
    parse_path parse_basic_calendar_date (root_path ++ ["A_20230215_0900_TIF"]%string) = PParsed k d /\
    In keeper (item_files (walk_items_list scenario3)) /\ ~ In keeper (to_remove scenario3_state) /\
    parse_path parse_basic_calendar_date keeper = PParsed k d' /\ date_le d d'.
Proof.
  apply (deletion_keeps_newer_copy parse_basic_calendar_date all_removable scenario3
           (to_remove scenario3_state) (Returned (2, 2)%nat)).
  - vm_compute. repeat constructor; simpl; intuition discriminate.
  - vm_compute. reflexivity.
  - left. reflexivity.
Defined.

(** X8: running the program again on what a completed walk keeps (the kept
    files, in any order and any directory layout) scans without error,
    marks nothing for removal, deletes nothing and reports the same number
    of kept files. *)
Theorem rerun_deletes_nothing :
  forall (basic_calendar_date : string -> result Date FormatError) remove_file dirs st dirs2 l,
  scan_entries basic_calendar_date dirs empty_state = Returned st ->
  walk_items_list dirs2 = map WFile l ->
  Permutation l (map full_path (to_keep st)) ->
  main basic_calendar_date remove_file dirs2 = ([], Returned (length (to_keep st), 0%nat)).
Proof.
  intros P rm dirs st dirs2 l Hs Hw Hperm.
  pose proof (scan_entries_inv P dirs st Hs) as [Hks [_ [Hkept _]]].
  assert (Hkeys : map (parsed_key P) (map full_path (to_keep st)) = map Some (map path (to_keep st))).
  { rewrite !map_map. apply map_ext_in. intros g Hg. unfold parsed_key.
    rewrite (Hkept g Hg). reflexivity. }
  destruct (scan_fresh_keys P l empty_state) as [st2 [Hscan [Hr Hlen]]].
  - unfold keep_sorted. simpl. constructor.
  - intros p Hp. apply (Permutation_in _ Hperm) in Hp. rewrite In_paths in Hp.
    destruct Hp as [g [<- Hg]]. unfold parsed_key. rewrite (Hkept g Hg). discriminate.
  - simpl. rewrite app_nil_r.
    eapply Permutation_NoDup; [apply Permutation_sym, Permutation_map, Hperm|].
    rewrite Hkeys. apply NoDup_map_Some. exact (keep_sorted_NoDup_keys _ Hks).
  - unfold main. rewrite scan_entries_items, Hw, Hscan. simpl. simpl in Hr. rewrite Hr. simpl.
    simpl in Hlen. rewrite Hlen, (Permutation_length Hperm), length_map, Nat.add_0_r.
    reflexivity.
Qed.

Lemma rerun_deletes_nothing_witness :
  main parse_basic_calendar_date all_removable scenario3_after = ([], Returned (2%nat, 0%nat)).
Proof.
  apply (rerun_deletes_nothing parse_basic_calendar_date all_removable scenario3 scenario3_state
           scenario3_after
           [root_path ++ ["sub"; "B_20230101_1200_TIF"]%string;
            root_path ++ ["A_20230301_1200_TIF"]%string]).
  - vm_compute. reflexivity.
  - vm_compute. reflexivity.
  - simpl. apply perm_swap.
Defined.

(** X9: when no two files of the tree share a group key (and every file
    parses), the walk marks nothing for removal and the run never calls
    [remove_file]. *)
Theorem distinct_keys_nothing_deleted :
  forall (basic_calendar_date : string -> result Date FormatError) remove_file dirs,
  NoDup (map (parsed_key basic_calendar_date) (item_files (walk_items_list dirs))) ->
  fst (main basic_calendar_date remove_file dirs) = [] /\
  forall st, scan_entries basic_calendar_date dirs empty_state = Returned st ->
    to_remove st = [] /\
    main basic_calendar_date remove_file dirs = ([], Returned (length (to_keep st), 0%nat)).
Proof.
  intros P rm dirs Hnd.
  assert (Hst : forall st, scan_entries P dirs empty_state = Returned st -> to_remove st = []).
  { intros st Hs. pose proof (scan_entries_inv P dirs st Hs) as [_ [_ [Hkept [Hrem [Hunion Hdis]]]]].
    destruct (to_remove st) as [|r rs] eqn:Er; [reflexivity|exfalso].
    assert (Hr : In r (r :: rs)) by (left; reflexivity).
    destruct (Hrem r Hr) as [k [d [Hrk [g [Hg [Hgk _]]]]]].
    pose proof (proj1 (proj1 (Hunion r) (or_intror Hr))) as Hrv.
    pose proof (proj1 (proj1 (Hunion (full_path g)) (or_introl (in_map full_path _ g Hg)))) as Hgv.
    assert (Heq : r = full_path g).
    { apply (NoDup_map_inj_on (parsed_key P) _ _ _ Hnd Hrv Hgv).
      unfold parsed_key. rewrite Hrk, (Hkept g Hg), Hgk. reflexivity. }
    destruct (Hdis (NoDup_map_inv _ _ Hnd)) as [_ Hdj].
    apply (Hdj (full_path g) (in_map full_path _ g Hg)). rewrite <- Heq. exact Hr. }
  split.
  - unfold main. destruct (scan_entries P dirs empty_state) as [st|e|] eqn:Hs; [|reflexivity..].
    rewrite (Hst st eq_refl). reflexivity.
  - intros st Hs. split; [exact (Hst st Hs)|].
    unfold main. rewrite Hs. simpl. rewrite (Hst st Hs). reflexivity.
Qed.

Lemma distinct_keys_nothing_deleted_witness :
  fst (main parse_basic_calendar_date all_removable scenario3_after) = [].
Proof.
  apply (distinct_keys_nothing_deleted parse_basic_calendar_date all_removable scenario3_after).
  vm_compute. repeat constructor; simpl; intuition discriminate.
Defined.

(** X10: for a filename of at least four underscore-delimited fields, the
    group key and the date depend on the filename only, not on the
    directories above it.  So two copies of one file in two directories are
    one group: the first one scanned is kept and the other marked for
    removal. *)
Theorem same_filename_same_group :
  forall (basic_calendar_date : string -> result Date FormatError) dir1 dir2 name,
  has_char "/" name = false -> 4 <= length (str_split "_" name) ->
  parse_path basic_calendar_date (dir1 ++ [name]) = parse_path basic_calendar_date (dir2 ++ [name]) /\
  forall k d st, parse_path basic_calendar_date (dir1 ++ [name]) = PParsed k d ->
    (forall g, In g (to_keep st) -> path g <> k) ->
    bind_outcome (scan_file basic_calendar_date (dir1 ++ [name]) st)
                 (scan_file basic_calendar_date (dir2 ++ [name])) =
    Returned (mkScanState (keep_insert (mkFoundFile k d (dir1 ++ [name])) (to_keep st))
                          (remove_insert (dir2 ++ [name]) (to_remove st)) (error_log st)).
Proof.
  intros P dir1 dir2 name Hs H4.
  assert (Heq : parse_path P (dir1 ++ [name]) = parse_path P (dir2 ++ [name]))
    by (rewrite !parse_path_snoc by assumption; reflexivity).
  split; [exact Heq|]. intros k d st Hp Hfresh.
  unfold scan_file at 1. rewrite Hp, dedup_new by exact Hfresh. cbn [bind_outcome].
  unfold scan_file. rewrite <- Heq, Hp.
  rewrite dedup_second by (simpl; auto). cbn [date full_path].
  rewrite date_lt_irrefl. reflexivity.
Qed.

Lemma same_filename_same_group_witness :
  parse_path parse_basic_calendar_date (root_path ++ ["A_20230101_1200_TIF"]%string) =
  parse_path parse_basic_calendar_date ((root_path ++ ["sub"]%string) ++ ["A_20230101_1200_TIF"]%string) /\
  bind_outcome (scan_file parse_basic_calendar_date (root_path ++ ["A_20230101_1200_TIF"]%string)
                          empty_state)
               (scan_file parse_basic_calendar_date
                          ((root_path ++ ["sub"]%string) ++ ["A_20230101_1200_TIF"]%string)) =
  Returned (mkScanState [tile_A_jan]
                        [(root_path ++ ["sub"]%string) ++ ["A_20230101_1200_TIF"]%string] []).
Proof.
  destruct (same_filename_same_group parse_basic_calendar_date root_path (root_path ++ ["sub"]%string)
              "A_20230101_1200_TIF" eq_refl ltac:(vm_compute; lia)) as [H1 H2].
  split; [exact H1|].
  exact (H2 "A"%string (mkDate 2023 1) empty_state ltac:(vm_compute; reflexivity) (fun g Hg => match Hg with end)).
Defined.

(** X11: a filename of exactly three fields (an empty group key) under
    directories without '_' gives the date parser the whole directory path,
    a '/' and the first field, not the first field alone. *)
Theorem three_field_name_date_token :
  forall (basic_calendar_date : string -> result Date FormatError) dir name a b c,
  has_char "/" name = false ->
  (forall comp, In comp dir -> has_char "_" comp = false) ->
  str_split "_" name = [a; b; c] ->
  parse_path basic_calendar_date (dir ++ [name]) =
  match basic_calendar_date (path_display dir ++ String "/" a)%string with
  | Ok d => PParsed ""%string d
  | Err e => PBadDate e
  end.
Proof.
  intros P dir name a b c Hs Hdir E.
  assert (Ht : next_back_nth 2 (str_split "_" (path_display (dir ++ [name]))) =
               Some (path_display dir ++ String "/" a)%string).
  { rewrite path_display_snoc, str_split_app,
      (has_char_split _ _ (path_display_no_underscore dir Hdir)).
    assert (E2 : str_split "_" (String "/" name) = [String "/" a; b; c])
      by (simpl; rewrite E; reflexivity).
    rewrite E2. reflexivity. }
  unfold parse_path. cbv zeta.
  rewrite (last_segment_snoc dir name Hs), E, Ht.
  destruct (P _); reflexivity.
Qed.

Lemma three_field_name_date_token_witness :
  parse_path parse_basic_calendar_date (root_path ++ ["20230101_1200_TIF"]%string) =
  PBadDate (format_error_of "expected YYYYMMDD").
Proof.
  rewrite (three_field_name_date_token parse_basic_calendar_date root_path "20230101_1200_TIF"
             "20230101" "1200" "TIF").
  - vm_compute. reflexivity.
  - reflexivity.
  - intros comp Hc. simpl in Hc.
    repeat (destruct Hc as [<-|Hc]; [reflexivity|]). destruct Hc.
  - reflexivity.
Defined.

(** X12: after any part of the walk, later scanning never cancels a
    removal already decided and never leaves a group without a kept file
    once one was kept. *)
Theorem walk_never_unschedules :
  forall (basic_calendar_date : string -> result Date FormatError) l1 l2 st1 st2,
  scan_items basic_calendar_date l1 empty_state = Returned st1 ->
  scan_items basic_calendar_date l2 st1 = Returned st2 ->
  incl (to_remove st1) (to_remove st2) /\ incl (map path (to_keep st1)) (map path (to_keep st2)).
Proof.
  intros P l1 l2 st1 st2 H1 H2.
  pose proof (scan_items_inv P l1 [] empty_state st1 (walk_inv_empty P) H1) as [Hks [Hrs _]].
  exact (scan_items_grows P l2 st1 st2 Hks Hrs H2).
Qed.

Lemma walk_never_unschedules_witness :
  incl (to_remove state_jan)
       (to_remove (mkScanState [tile_A_feb] [full_path tile_A_jan] [])).
Proof.
  refine (proj1 (walk_never_unschedules parse_basic_calendar_date
            [WFile (full_path tile_A_jan)] [WFile (full_path tile_A_feb)]
            state_jan (mkScanState [tile_A_feb] [full_path tile_A_jan] []) _ _)).
  - vm_compute. reflexivity.
  - vm_compute. reflexivity.
Defined.

(** ** The trait implementations *)

(** X13: the [Display] of [Error] writes the variant's name before the
    inner error's display, so two errors that display alike are of the same
    variant and their inner errors display alike, whatever the libraries'
    [Display] of [std::io::Error] and [FormatError] print. *)
Theorem error_display_variant : forall io_disp fmt_disp e1 e2,
  error_display io_disp fmt_disp e1 = error_display io_disp fmt_disp e2 ->
  (exists i1 i2, e1 = IOError i1 /\ e2 = IOError i2 /\ io_disp i1 = io_disp i2) \/
  (exists x1 x2, e1 = FormatError_ x1 /\ e2 = FormatError_ x2 /\
     fmt_disp x1 = fmt_disp x2).
Proof.
  intros io_disp fmt_disp [i1|x1] [i2|x2] H; unfold error_display in H.
  - left. exists i1, i2. split; [reflexivity|]. split; [reflexivity|].
    exact (string_append_cancel_l _ _ _ H).
  - simpl in H. discriminate H.
  - simpl in H. discriminate H.
  - right. exists x1, x2. split; [reflexivity|]. split; [reflexivity|].
    exact (string_append_cancel_l _ _ _ H).
Qed.

Lemma error_display_variant_witness :
  exists i1 i2, IOError (io_error_of "Permission denied") = IOError i1 /\
    IOError (io_error_of "Permission denied") = IOError i2.
Proof.
  destruct (error_display_variant (fun _ => EmptyString) (fun _ => EmptyString)
    (IOError (io_error_of "Permission denied")) (IOError (io_error_of "Permission denied"))
    eq_refl) as [[i1 [i2 [H1 [H2 _]]]]|[x1 [x2 [H _]]]];
    [exists i1, i2; split; assumption|discriminate H].
Defined.

(** X14: [FoundFile]'s [PartialEq] and [Ord] look at the group key only
    and agree: two files are equal exactly when [cmp] says [Equal], that is
    when their keys are equal, whatever their dates and paths; [cmp] is
    antisymmetric and transitive, as [BTreeSet] requires. *)
Theorem found_file_ord_consistent : forall a b c,
  (found_file_eq a b = true <-> found_file_cmp a b = Eq) /\
  (found_file_eq a b = true <-> path a = path b) /\
  found_file_cmp a b = CompOpp (found_file_cmp b a) /\
  (found_file_cmp a b = Lt -> found_file_cmp b c = Lt -> found_file_cmp a c = Lt).
Proof.
  intros a b c. unfold found_file_eq, found_file_cmp, found_cmp.
  split.
  - split; intros H.
    + apply String.eqb_eq in H. rewrite H. apply string_compare_refl.
    + apply String.compare_eq_iff in H. apply String.eqb_eq. exact H.
  - split; [apply String.eqb_eq|].
  split; [apply String.compare_antisym|apply string_compare_trans].
Qed.
